(** * svg-to-geojson: a shallow embedding of [svgToGeojson.js]

    The development follows the three exported functions of the module,
    [reducePathSegCurveComplexity], [getSVGDimensions] and [svgToGeoJson],
    and states the properties of the specification against them.  The text
    followed is the module with the [complexity] and [attributes]
    parameters; the flattener of the older script is the same function.

    Conventions of the embedding.
    - A JavaScript number that the code computes with is a rational, or an
      integer once [Math.ceil] has been applied, extended with the three
      non-finite values ([ext]).  Rounding of doubles is outside the model:
      every integer below 2^53 is exact.
    - The browser's path geometry ([getTotalLength], [getPointAtLength]) is a
      parameter of the flattener, the record [Engine].
    - [undefined] is [None]; an array is a list; an object used as a
      dictionary is a [gmap].
    - An exception is a value of [outcome]; the [for] loop of the flattener
      runs on fuel, and [OutOfFuel] is the loop still running. *)

From Stdlib Require Import ZArith QArith Qround Lia Lqa Ascii String.
From stdpp Require Import gmap strings list.

(** ** JavaScript numbers *)

Inductive ext (A : Type) : Type :=
  | Finite (a : A)
  | PosInfinity
  | NegInfinity
  | NaN.
Arguments Finite {A} a.
Arguments PosInfinity {A}.
Arguments NegInfinity {A}.
Arguments NaN {A}.

(** [Math.ceil]. *)
Definition Math_ceil (v : ext Q) : ext Z :=
  match v with
  | Finite q => Finite (Qceiling q)
  | PosInfinity => PosInfinity
  | NegInfinity => NegInfinity
  | NaN => NaN
  end.

(** [a / b] for an integer-valued [a] and an integer [b]: a zero divisor
    gives an infinity of the sign of [a], or [NaN] for [0 / 0]. *)
Definition js_div (a : ext Z) (b : Z) : ext Q :=
  match a with
  | Finite n =>
      if (b =? 0)%Z then
        if (0 <? n)%Z then PosInfinity
        else if (n <? 0)%Z then NegInfinity
        else NaN
      else Finite (inject_Z n / inject_Z b)%Q
  | PosInfinity => if (0 <=? b)%Z then PosInfinity else NegInfinity
  | NegInfinity => if (0 <=? b)%Z then NegInfinity else PosInfinity
  | NaN => NaN
  end.

(** [!a]: zero and [NaN] are the falsy numbers. *)
Definition js_not (a : ext Z) : bool :=
  match a with
  | Finite n => (n =? 0)%Z
  | NaN => true
  | PosInfinity | NegInfinity => false
  end.

(** [a <= b]. *)
Definition js_le (a b : ext Z) : bool :=
  match a, b with
  | NaN, _ | _, NaN => false
  | Finite m, Finite n => (m <=? n)%Z
  | NegInfinity, _ => true
  | _, PosInfinity => true
  | PosInfinity, _ => false
  | Finite _, NegInfinity => false
  end.

(** [a + b]. *)
Definition js_add (a b : ext Z) : ext Z :=
  match a, b with
  | NaN, _ | _, NaN => NaN
  | Finite m, Finite n => Finite (m + n)%Z
  | PosInfinity, NegInfinity | NegInfinity, PosInfinity => NaN
  | PosInfinity, _ | _, PosInfinity => PosInfinity
  | NegInfinity, _ | _, NegInfinity => NegInfinity
  end.

(** ** Exceptions and results *)

Inductive exception := TypeError.

Inductive outcome (A : Type) : Type :=
  | Returns (a : A)
  | Throws (e : exception)
  | OutOfFuel.
Arguments Returns {A} a.
Arguments Throws {A} e.
Arguments OutOfFuel {A}.

(** ** Path segments and the geometry engine *)

Section PathData.
Context {num : Type}.

(** A normalized path segment, [{type, values}]. *)
Record PathSeg := { type : string; values : list (option num) }.

(** [values[i]]; reading past the end gives [undefined]. *)
Definition index (vs : list (option num)) (i : nat) : option num :=
  default None (vs !! i).

(** [values.slice(-2)]. *)
Definition slice_last2 (vs : list (option num)) : list (option num) :=
  drop (length vs - 2) vs.

(** The temporary [path] element: its [d] attribute is
    ["M " + moveto.join(',') + "C" + curveto.join(',')]. *)
Record SVGPathElement := {
  moveto : list (option num);
  curveto : list (option num)
}.

Record DOMPoint := { x : num; y : num }.

(** What the browser computes for a path element.  A length is a finite
    number that is not negative. *)
Record Engine := {
  getTotalLength : SVGPathElement → Q;
  getPointAtLength : SVGPathElement → ext Z → DOMPoint;
  getTotalLength_nonneg : ∀ p, (0 <= getTotalLength p)%Q
}.

End PathData.
Arguments PathSeg num : clear implicits.
Arguments SVGPathElement num : clear implicits.
Arguments DOMPoint num : clear implicits.
Arguments Engine num : clear implicits.

(** ** [reducePathSegCurveComplexity] *)

Section Flattener.
Context {num : Type} (document : Engine num).

(** The loop variables of [pathSegList.forEach]: the output array and the
    segment just passed. *)
Record Loop := { newSegs : list (PathSeg num); lastSeg : option (PathSeg num) }.

Definition LineTo (a b : option num) : PathSeg num :=
  {| type := "L"; values := [a; b] |}.

(** The [L] segment at the point of [tmpPath] at distance [d]. *)
Definition lineAt (tmpPath : SVGPathElement num) (d : ext Z) : PathSeg num :=
  let point := getPointAtLength document tmpPath d in
  LineTo (Some (x point)) (Some (y point)).

(** [for (d = lengthStep, len = tmpPathLength; d <= len; d += lengthStep)],
    entered with the current [d]. *)
Fixpoint sample (fuel : nat) (tmpPath : SVGPathElement num)
    (d len lengthStep : ext Z) (segs : list (PathSeg num))
  : option (list (PathSeg num)) :=
  match fuel with
  | O => None
  | S fuel' =>
      if js_le d len then
        sample fuel' tmpPath (js_add d lengthStep) len lengthStep
          (segs ++ [lineAt tmpPath d])
      else Some segs
  end.

(** The temporary path of a curve, [M] at the last two values of the
    segment before it, and the two numbers computed from its length. *)
Definition tmpPath (last seg : PathSeg num) : SVGPathElement num :=
  let lastSegCoords := slice_last2 (values last) in
  {| moveto := lastSegCoords; curveto := values seg |}.

Definition tmpPathLength (last seg : PathSeg num) : ext Z :=
  Math_ceil (Finite (getTotalLength document (tmpPath last seg))).

Definition lengthStep (last seg : PathSeg num) (complexity : Z) : ext Z :=
  Math_ceil (js_div (tmpPathLength last seg) complexity).

(** The callback of [forEach].  Its early [return], for a curve of length
    zero, also skips [lastSeg = seg]. *)
Definition each (fuel : nat) (complexity : Z) (st : Loop) (seg : PathSeg num)
  : outcome Loop :=
  if bool_decide (type seg = "C") then
    match lastSeg st with
    | None => Throws TypeError
    | Some last =>
        if js_not (tmpPathLength last seg)
           || js_not (lengthStep last seg complexity)
        then Returns st
        else
          match sample fuel (tmpPath last seg)
                  (lengthStep last seg complexity) (tmpPathLength last seg)
                  (lengthStep last seg complexity) (newSegs st) with
          | None => OutOfFuel
          | Some segs =>
              Returns
                {| newSegs :=
                     segs ++ [LineTo (index (values seg) 4)
                                     (index (values seg) 5)];
                   lastSeg := Some seg |}
          end
    end
  else
    Returns {| newSegs := newSegs st ++ [seg]; lastSeg := Some seg |}.

Fixpoint forEach (fuel : nat) (complexity : Z) (l : list (PathSeg num))
    (st : Loop) : outcome Loop :=
  match l with
  | [] => Returns st
  | seg :: l' =>
      match each fuel complexity st seg with
      | Returns st' => forEach fuel complexity l' st'
      | Throws e => Throws e
      | OutOfFuel => OutOfFuel
      end
  end.

Definition reducePathSegCurveComplexity (fuel : nat)
    (pathSegList : list (PathSeg num)) (complexity : Z)
  : outcome (list (PathSeg num)) :=
  match forEach fuel complexity pathSegList
          {| newSegs := []; lastSeg := None |} with
  | Returns st => Returns (newSegs st)
  | Throws e => Throws e
  | OutOfFuel => OutOfFuel
  end.

(** What the flattener leaves of the segments that follow [last] when the
    complexity is 0, written without the loop: a curve of length zero
    leaves nothing and is not a start for what follows; any other curve
    leaves its declared end point; every other segment is kept. *)
Fixpoint at_complexity_zero (last : PathSeg num) (l : list (PathSeg num))
  : list (PathSeg num) :=
  match l with
  | [] => []
  | seg :: l' =>
      if bool_decide (type seg = "C") then
        if Qeq_bool (getTotalLength document (tmpPath last seg)) 0
        then at_complexity_zero last l'
        else LineTo (index (values seg) 4) (index (values seg) 5)
             :: at_complexity_zero seg l'
      else seg :: at_complexity_zero seg l'
  end.

End Flattener.
Arguments Loop num : clear implicits.

(** The distances [d], [d + step], ..., [k] of them: where a loop that is
    entered at [d] samples the path. *)
Definition marks (d step : Z) (k : nat) : list (ext Z) :=
  map (λ i : nat, Finite (d + Z.of_nat i * step)%Z) (seq 0 k).

(** ** The document

    An element answers [tagName], [getAttribute] (a missing attribute is
    [null], here [None]) and [getPathData({normalize: true})]; the [svg] node
    also answers [querySelectorAll] for the shapes it contains. *)

Record Element := {
  tagName : string;
  getAttribute : string → option string;
  getPathData : list (PathSeg Q)
}.

Record SVGSVGElement := {
  element :> Element;
  querySelectorAll : list Element
}.

(** ** [getSVGDimensions] *)

(** The values a dimension can hold: what [parseInt] returns, an item of
    [viewBox.split(...)], or [undefined]. *)
Inductive jsvalue :=
  | Num (n : ext Z)
  | Str (s : string)
  | Undefined.

Definition typeof (v : jsvalue) : string :=
  match v with
  | Num _ => "number"
  | Str _ => "string"
  | Undefined => "undefined"
  end.

(** White space as [parseInt] and [\s] see it, for the ASCII range: tab,
    line feed, vertical tab, form feed, carriage return and space. *)
Definition white_space (c : ascii) : bool :=
  let n := nat_of_ascii c in
  (n =? 9) || (n =? 10) || (n =? 11) || (n =? 12) || (n =? 13) || (n =? 32).

Fixpoint trim_start (s : string) : string :=
  match s with
  | String c s' => if white_space c then trim_start s' else s
  | EmptyString => s
  end.

Definition digit (c : ascii) : option Z :=
  let n := Z.of_nat (nat_of_ascii c) in
  if (48 <=? n)%Z && (n <=? 57)%Z then Some (n - 48)%Z else None.

(** The value of the longest prefix of decimal digits; [None] when the
    string does not start with a digit. *)
Fixpoint digits (s : string) (acc : option Z) : option Z :=
  match s with
  | String c s' =>
      match digit c with
      | Some v => digits s' (Some (10 * default 0%Z acc + v)%Z)
      | None => acc
      end
  | EmptyString => acc
  end.

(** [parseInt(input, 10)]; a missing attribute is [null], which reads as the
    string ["null"].  Whole numbers are exact here, as all numbers of this
    model are: the built-in rounds a numeral above [2^53] to the nearest
    double and gives [Infinity] for one beyond the range of a double, and it
    also passes over the white space outside ASCII.  The statements below
    about [getSVGDimensions] do not rest on [parseInt] giving nothing but
    an integer or [NaN]. *)
Definition parseInt (input : option string) : ext Z :=
  let inputString := default "null" input in
  let s := trim_start inputString in
  let '(sign, s) :=
    match s with
    | String "-" r => ((-1)%Z, r)
    | String "+" r => (1%Z, r)
    | _ => (1%Z, s)
    end in
  match digits s None with
  | Some n => Finite (sign * n)%Z
  | None => NaN
  end.

(** [viewBox.replace(/^0-9/g, '')]: the pattern is the three characters
    [0-9] at the start of the string. *)
Definition replace_0_9 (s : string) : string :=
  match s with
  | String "0" (String "-" (String "9" r)) => r
  | _ => s
  end.

(** [viewBox.split(/\s+/)]. *)
Fixpoint split_spaces (s : string) (item : string) (in_space : bool)
  : list string :=
  match s with
  | EmptyString => [item]
  | String c s' =>
      if white_space c then
        if in_space then split_spaces s' item true
        else item :: split_spaces s' EmptyString true
      else split_spaces s' (item +:+ String c EmptyString) false
  end.

Definition item (wh : list string) (i : nat) : jsvalue :=
  match wh !! i with
  | Some s => Str s
  | None => Undefined
  end.

(** The result: [false], or the object [{ width, height }]. *)
Inductive SVGDimensions :=
  | NoDimensions
  | Dimensions (width height : jsvalue).

Section Dimensions.
(** The number a string converts to, as [isNaN] and [+x] compute it. *)
Context (StringToNumber : string → ext Q).

Definition ToNumber (v : jsvalue) : ext Q :=
  match v with
  | Num (Finite n) => Finite (inject_Z n)
  | Num PosInfinity => PosInfinity
  | Num NegInfinity => NegInfinity
  | Num NaN => NaN
  | Str s => StringToNumber s
  | Undefined => NaN
  end.

Definition isNaN (v : jsvalue) : bool :=
  match ToNumber v with
  | NaN => true
  | _ => false
  end.

Definition getSVGDimensions (svgNode : SVGSVGElement) : SVGDimensions :=
  let width := Num (parseInt (getAttribute svgNode "width")) in
  let height := Num (parseInt (getAttribute svgNode "height")) in
  if negb (bool_decide (typeof width = "number")) || isNaN width
     || negb (bool_decide (typeof height = "number")) || isNaN height
  then
    match getAttribute svgNode "viewBox" with
    | None => NoDimensions
    | Some viewBox =>
        if bool_decide (viewBox = EmptyString)
           || negb (bool_decide
                      (typeof (Str (replace_0_9 viewBox)) = "number"))
        then NoDimensions
        else
          let wh := split_spaces viewBox EmptyString false in
          Dimensions (item wh 2) (item wh 3)
    end
  else Dimensions width height.

End Dimensions.

(** ** The linear scale

    [scaleLinear().range([r0, r1]).domain([d0, d1])] of d3-scale, a
    dependency of the module: the unclamped linear map that sends [d0] to
    [r0] and [d1] to [r1], computed as [r0 + (r1 - r0) * t] with
    [t = (v - d0) / (d1 - d0)], and [t = 0] on a domain of width zero (as
    d3-scale 1 has it; no property below depends on that value).  It is
    modelled over exact rationals; [NaN] absorbs, and so does an operand that
    is not finite. *)
Definition scaleLinear (range domain : ext Q * ext Q) (v : ext Q) : ext Q :=
  match range, domain, v with
  | (Finite r0, Finite r1), (Finite d0, Finite d1), Finite v =>
      let t := if Qeq_bool (d1 - d0) 0 then 0%Q
               else ((v - d0) / (d1 - d0))%Q in
      Finite (r0 + (r1 - r0) * t)%Q
  | _, _, _ => NaN
  end.

(** Two finite numbers of the same value. *)
Definition equals (a b : ext Q) : Prop :=
  match a, b with
  | Finite p, Finite q => (p == q)%Q
  | _, _ => False
  end.

(** [parseFloat] of a number that is finite. *)
Definition parseFloat (q : Q) : ext Q := Finite q.

(** ** [svgToGeoJson] *)

Definition Position : Type := ext Q * ext Q.

Inductive Geometry :=
  | LineString (coordinates : list Position)
  | Polygon (coordinates : list (list Position)).

Record Feature := {
  properties : gmap string string;
  geometry : Geometry
}.

Record FeatureCollection := { features : list Feature }.

(** [dims.width] and [dims.height]; a property of [false] is [undefined]. *)
Definition width (dims : SVGDimensions) : jsvalue :=
  match dims with
  | NoDimensions => Undefined
  | Dimensions w _ => w
  end.

Definition height (dims : SVGDimensions) : jsvalue :=
  match dims with
  | NoDimensions => Undefined
  | Dimensions _ h => h
  end.

(** A coordinate read from [values], as a number: [undefined] is [NaN]. *)
Definition number (v : option Q) : ext Q :=
  match v with
  | Some q => Finite q
  | None => NaN
  end.

(** [pathData.map(...)]: the point of each segment, and for a [Z] the point
    of [pathData[0]]. *)
Definition coords (pathData : list (PathSeg Q)) : list (option Q * option Q) :=
  map (λ pathitem,
         if bool_decide (type pathitem = "Z") then
           match pathData !! 0%nat with
           | Some first => (index (values first) 0, index (values first) 1)
           | None => (None, None)
           end
         else (index (values pathitem) 0, index (values pathitem) 1))
      pathData.

(** [properties[attr] = value] for a string [value], on an object written
    as [{}] and taken for the map of its own keys.  The key [__proto__] is
    the accessor that the object inherits from [Object.prototype]: the
    assignment calls its setter, which does nothing with a value that is
    not an object, and no own key is made.  Every other key is made or
    overwritten. *)
Definition assign (properties : gmap string string) (attr value : string)
  : gmap string string :=
  if bool_decide (attr = "__proto__") then properties
  else <[attr := value]> properties.

(** [attributes.forEach(...)] filling [properties]. *)
Definition collect (elem : Element) (attributes : list string)
  : gmap string string :=
  foldl (λ properties attr,
           match getAttribute elem attr with
           | Some value =>
               if bool_decide (value = EmptyString) then properties
               else assign properties attr value
           | None => properties
           end)
        ∅ attributes.

(** The two scales: [bounds] is [[[north, east], [south, west]]], and the
    domains are [[0, width]] and [[0, height]]. *)
Definition mapX (bounds : (Q * Q) * (Q * Q)) (width : ext Q) : ext Q → ext Q :=
  let ne := bounds.1 in
  let sw := bounds.2 in
  scaleLinear (parseFloat sw.2, parseFloat ne.2) (Finite 0%Q, width).

Definition mapY (bounds : (Q * Q) * (Q * Q)) (height : ext Q) : ext Q → ext Q :=
  let ne := bounds.1 in
  let sw := bounds.2 in
  scaleLinear (parseFloat ne.1, parseFloat sw.1) (Finite 0%Q, height).

(** [[mapX(coord[0]), mapY(coord[1])]]. *)
Definition mapped (mapX mapY : ext Q → ext Q) (coord : option Q * option Q)
  : Position :=
  (mapX (number coord.1), mapY (number coord.2)).

Section Convert.
Context (document : Engine Q) (StringToNumber : string → ext Q).

(** The body of [elems.forEach], for one element. *)
Definition convert (fuel : nat) (mapX mapY : ext Q → ext Q)
    (complexity : Z) (attributes : list string) (elem : Element)
  : outcome Feature :=
  match reducePathSegCurveComplexity document fuel (getPathData elem)
          complexity with
  | Returns pathData =>
      let mappedCoords := map (mapped mapX mapY) (coords pathData) in
      Returns
        {| properties := collect elem attributes;
           geometry :=
             if bool_decide (tagName elem = "polyline")
             then LineString mappedCoords
             else Polygon [mappedCoords] |}
  | Throws e => Throws e
  | OutOfFuel => OutOfFuel
  end.

Fixpoint convertAll (fuel : nat) (mapX mapY : ext Q → ext Q)
    (complexity : Z) (attributes : list string) (elems : list Element)
    (geoJson : list Feature) : outcome (list Feature) :=
  match elems with
  | [] => Returns geoJson
  | elem :: elems' =>
      match convert fuel mapX mapY complexity attributes elem with
      | Returns f =>
          convertAll fuel mapX mapY complexity attributes elems'
            (geoJson ++ [f])
      | Throws e => Throws e
      | OutOfFuel => OutOfFuel
      end
  end.

Definition svgToGeoJson (fuel : nat) (bounds : (Q * Q) * (Q * Q))
    (svgNode : SVGSVGElement) (complexity : Z) (attributes : list string)
  : outcome FeatureCollection :=
  let svgDims := getSVGDimensions StringToNumber svgNode in
  let elems := querySelectorAll svgNode in
  let mapX := mapX bounds (ToNumber StringToNumber (width svgDims)) in
  let mapY := mapY bounds (ToNumber StringToNumber (height svgDims)) in
  match convertAll fuel mapX mapY complexity attributes elems [] with
  | Returns fs => Returns {| features := fs |}
  | Throws e => Throws e
  | OutOfFuel => OutOfFuel
  end.

End Convert.

(** ** The flattener on the heap

    The same function with its objects made explicit: the input array, its
    segments and their [values] arrays live in a store, [newSegs] and the
    [L] segments are allocated in it, and a segment that is not a curve is
    pushed by reference.  This is the model for what the call shares with
    its input and what it leaves alone. *)

Module Heap.
Section Heap.
Context {num : Type} (document : Engine num).

Definition ref := positive.

Inductive object :=
  | Segment (type : string) (values : ref)
  | Numbers (items : list (option num))
  | Array (items : list ref).

Local Abbreviation heap := (gmap ref object).

(** Computations on the store.  The store is kept when a computation
    throws or runs out of fuel. *)
Definition M (A : Type) : Type := heap → outcome A * heap.

Definition ret {A} (a : A) : M A := λ h, (Returns a, h).

Definition bind {A B} (m : M A) (k : A → M B) : M B :=
  λ h, match m h with
       | (Returns a, h') => k a h'
       | (Throws e, h') => (Throws e, h')
       | (OutOfFuel, h') => (OutOfFuel, h')
       end.

Local Notation "'let!' x := m 'in' k" := (bind m (λ x, k))
  (at level 10, x name, m at level 100, k at level 200).

Definition throw {A} (e : exception) : M A := λ h, (Throws e, h).

Definition alloc (o : object) : M ref :=
  λ h, let r := fresh (dom h) in (Returns r, <[r := o]> h).

(** [seg.type] and [seg.values]. *)
Definition getType (r : ref) : M string :=
  λ h, match h !! r with
       | Some (Segment t _) => (Returns t, h)
       | _ => (Throws TypeError, h)
       end.

Definition getValues (r : ref) : M ref :=
  λ h, match h !! r with
       | Some (Segment _ v) => (Returns v, h)
       | _ => (Throws TypeError, h)
       end.

Definition getNumbers (r : ref) : M (list (option num)) :=
  λ h, match h !! r with
       | Some (Numbers vs) => (Returns vs, h)
       | _ => (Throws TypeError, h)
       end.

Definition getArray (r : ref) : M (list ref) :=
  λ h, match h !! r with
       | Some (Array rs) => (Returns rs, h)
       | _ => (Throws TypeError, h)
       end.

(** [array.push(item)]. *)
Definition push (array item : ref) : M unit :=
  λ h, match h !! array with
       | Some (Array rs) => (Returns tt, <[array := Array (rs ++ [item])]> h)
       | _ => (Throws TypeError, h)
       end.

(** [newSegs.push({ type: 'L', values: [a, b] })]. *)
Definition pushLineTo (newSegs : ref) (a b : option num) : M unit :=
  let! vs := alloc (Numbers [a; b]) in
  let! seg := alloc (Segment "L" vs) in
  push newSegs seg.

Fixpoint sample (fuel : nat) (tmpPath : SVGPathElement num)
    (d len lengthStep : ext Z) (newSegs : ref) : M unit :=
  match fuel with
  | O => λ h, (OutOfFuel, h)
  | S fuel' =>
      if js_le d len then
        let point := getPointAtLength document tmpPath d in
        let! _ := pushLineTo newSegs (Some (x point)) (Some (y point)) in
        sample fuel' tmpPath (js_add d lengthStep) len lengthStep newSegs
      else ret tt
  end.

(** The callback of [forEach]; it returns the new [lastSeg]. *)
Definition each (fuel : nat) (complexity : Z) (newSegs : ref)
    (lastSeg : option ref) (seg : ref) : M (option ref) :=
  let! t := getType seg in
  if bool_decide (t = "C") then
    match lastSeg with
    | None => throw TypeError
    | Some last =>
        let! lv := getValues last in
        let! lastValues := getNumbers lv in
        let! v := getValues seg in
        let! segValues := getNumbers v in
        let lastSegCoords := slice_last2 lastValues in
        let tmpPath := {| moveto := lastSegCoords; curveto := segValues |} in
        let tmpPathLength :=
          Math_ceil (Finite (getTotalLength document tmpPath)) in
        let lengthStep := Math_ceil (js_div tmpPathLength complexity) in
        if js_not tmpPathLength || js_not lengthStep then ret lastSeg
        else
          let! _ := sample fuel tmpPath lengthStep tmpPathLength lengthStep
                      newSegs in
          let! _ := pushLineTo newSegs (index segValues 4)
                      (index segValues 5) in
          ret (Some seg)
    end
  else
    let! _ := push newSegs seg in
    ret (Some seg).

Fixpoint forEach (fuel : nat) (complexity : Z) (newSegs : ref)
    (l : list ref) (lastSeg : option ref) : M (option ref) :=
  match l with
  | [] => ret lastSeg
  | seg :: l' =>
      let! lastSeg' := each fuel complexity newSegs lastSeg seg in
      forEach fuel complexity newSegs l' lastSeg'
  end.

Definition reducePathSegCurveComplexity (fuel : nat) (pathSegList : ref)
    (complexity : Z) : M ref :=
  let! newSegs := alloc (Array []) in
  let! segs := getArray pathSegList in
  let! _ := forEach fuel complexity newSegs segs None in
  ret newSegs.

(** The segment a reference denotes in a store. *)
Definition view (h : heap) (r : ref) : option (PathSeg num) :=
  match h !! r with
  | Some (Segment t v) =>
      match h !! v with
      | Some (Numbers vs) => Some {| type := t; values := vs |}
      | _ => None
      end
  | _ => None
  end.

(** [lastSeg] as a reference and as a segment. *)
Definition same_last (h : heap) (lastRef : option ref)
    (lastSeg : option (PathSeg num)) : Prop :=
  match lastRef, lastSeg with
  | Some r, Some seg => view h r = Some seg
  | None, None => True
  | _, _ => False
  end.

(** The references of a store that hold a curve segment. *)
Definition curve (h : heap) (r : ref) : bool :=
  match h !! r with
  | Some (Segment t _) => bool_decide (t = "C")
  | _ => false
  end.

End Heap.
Arguments object num : clear implicits.

(** [h'] keeps every object of [h], but for the array [newSegs]. *)
Definition grows {num : Type} (newSegs : ref)
    (h h' : gmap ref (object num)) : Prop :=
  ∀ r o, h !! r = Some o → r ≠ newSegs → h' !! r = Some o.

End Heap.

(** ** Example data *)

Definition MoveTo (a b : Q) : PathSeg Q :=
  {| type := "M"; values := [Some a; Some b] |}.

Definition CurveTo (x1 y1 x2 y2 a b : Q) : PathSeg Q :=
  {| type := "C";
     values := [Some x1; Some y1; Some x2; Some y2; Some a; Some b] |}.

Definition ClosePath : PathSeg Q := {| type := "Z"; values := [] |}.

(** The point at distance [d] from the origin along the positive x axis. *)
Definition along (d : ext Z) : DOMPoint Q :=
  match d with
  | Finite n => {| x := inject_Z n; y := 0%Q |}
  | _ => {| x := 0%Q; y := 0%Q |}
  end.

(** The point at distance [d] along the curve that runs from the origin to
    (9/4, 0) and back. *)
Definition there_and_back (d : ext Z) : DOMPoint Q :=
  match d with
  | Finite n =>
      if (n <=? 2)%Z then {| x := inject_Z n; y := 0%Q |}
      else if (n <=? 4)%Z then {| x := ((9 # 2) - inject_Z n)%Q; y := 0%Q |}
      else {| x := 0%Q; y := 0%Q |}
  | _ => {| x := 0%Q; y := 0%Q |}
  end.

(** A browser that reports the length [L] and the given points. *)
Definition browser (L : Q) (nonneg : (0 <= L)%Q)
    (point : ext Z → DOMPoint Q) : Engine Q :=
  {| getTotalLength := λ _, L;
     getPointAtLength := λ _ d, point d;
     getTotalLength_nonneg := λ _, nonneg |}.

Definition nonneg_10 : (0 <= 10)%Q.
Proof. discriminate. Defined.

Definition nonneg_9_2 : (0 <= 9 # 2)%Q.
Proof. discriminate. Defined.

Definition nonneg_0 : (0 <= 0)%Q.
Proof. discriminate. Defined.

(** The straight stroke [M 0,0 C 0,0 10,0 10,0]: it runs from (0,0) to
    (10,0) along the x axis, its length is 10, and its point at distance [d]
    is [(d, 0)]. *)
Definition stroke : list (PathSeg Q) :=
  [MoveTo 0 0; CurveTo 0 0 10 0 10 0].

Definition stroke_browser : Engine Q := browser 10 nonneg_10 along.

(** The curve [M 0,0 C 3,0 3,0 0,0]: it leaves the origin, turns at
    (9/4, 0) and comes back, so its anchor and its end point coincide and its
    length is 9/2. *)
Definition hairpin : list (PathSeg Q) :=
  [MoveTo 0 0; CurveTo 3 0 3 0 0 0].

(** The same stroke, measured a little long by the browser. *)
Definition nonneg_long : (0 <= 10001 # 1000)%Q.
Proof. discriminate. Defined.

Definition long_stroke_browser : Engine Q :=
  browser (10001 # 1000) nonneg_long along.

Definition hairpin_browser : Engine Q :=
  browser (9 # 2) nonneg_9_2 there_and_back.

(** The curve [M 5,5 C 5,5 5,5 5,5], of length 0. *)
Definition dot : list (PathSeg Q) :=
  [MoveTo 5 5; CurveTo 5 5 5 5 5 5].

Definition dot_browser : Engine Q := browser 0 nonneg_0 along.

(** The stroke [M 0,0 C 0,0 1/1000,0 1/1000,0], of length 1/1000; a
    distance past the end of a path gives its end point. *)
Definition speck : list (PathSeg Q) :=
  [MoveTo 0 0; CurveTo 0 0 (1 # 1000) 0 (1 # 1000) 0].

Definition speck_end (d : ext Z) : DOMPoint Q :=
  {| x := (1 # 1000)%Q; y := 0%Q |}.

Definition nonneg_speck : (0 <= 1 # 1000)%Q.
Proof. discriminate. Defined.

Definition speck_browser : Engine Q :=
  browser (1 # 1000) nonneg_speck speck_end.

(** The state of the loop after the [M 0,0] that opens the examples. *)
Definition at_origin : Loop Q :=
  {| newSegs := [MoveTo 0 0]; lastSeg := Some (MoveTo 0 0) |}.

(** The stroke in a store: the array at 1, [M 0,0] at 2 and the curve
    at 4, their [values] at 3 and at 5. *)
Definition stroke_store : gmap Heap.ref (Heap.object Q) :=
  <[1%positive := Heap.Array [2%positive; 4%positive]]>
    (<[2%positive := Heap.Segment "M" 3%positive]>
       (<[3%positive := Heap.Numbers [Some 0%Q; Some 0%Q]]>
          (<[4%positive := Heap.Segment "C" 5%positive]>
             (<[5%positive :=
                  Heap.Numbers
                    [Some 0%Q; Some 0%Q; Some 10%Q; Some 0%Q;
                     Some 10%Q; Some 0%Q]]> ∅)))).

(** A square with declared corners, closed by [Z]. *)
Definition square : list (PathSeg Q) :=
  [MoveTo 0 0;
   {| type := "L"; values := [Some 100%Q; Some 0%Q] |};
   {| type := "L"; values := [Some 100%Q; Some 100%Q] |};
   {| type := "L"; values := [Some 0%Q; Some 100%Q] |};
   ClosePath].

Definition attribute (name value : string) (attr : string) : option string :=
  if bool_decide (attr = name) then Some value else None.

Definition rect : Element :=
  {| tagName := "rect";
     getAttribute := attribute "id" "r1";
     getPathData := square |}.

(** The square again, with the attributes [id="r1"] and [__proto__="x"]. *)
Definition tagged : Element :=
  {| tagName := "rect";
     getAttribute := λ attr,
       if bool_decide (attr = "__proto__") then Some "x"
       else attribute "id" "r1" attr;
     getPathData := square |}.

(** [<svg width="100" height="100">] with the square in it. *)
Definition drawing : SVGSVGElement :=
  {| element :=
       {| tagName := "svg";
          getAttribute := λ attr,
            if bool_decide (attr = "width") then Some "100"
            else if bool_decide (attr = "height") then Some "100"
            else None;
          getPathData := [] |};
     querySelectorAll := [rect] |}.

(** [<svg width="0" height="0">]. *)
Definition collapsed : SVGSVGElement :=
  {| element :=
       {| tagName := "svg";
          getAttribute := λ attr,
            if bool_decide (attr = "width") then Some "0"
            else if bool_decide (attr = "height") then Some "0"
            else None;
          getPathData := [] |};
     querySelectorAll := [] |}.

(** [<svg viewBox="0 0 100 50">], with no width and no height. *)
Definition boxed : SVGSVGElement :=
  {| element :=
       {| tagName := "svg";
          getAttribute := attribute "viewBox" "0 0 100 50";
          getPathData := [] |};
     querySelectorAll := [] |}.

(** [<svg>] with no attribute at all. *)
Definition bare : SVGSVGElement :=
  {| element :=
       {| tagName := "svg"; getAttribute := λ _, None; getPathData := [] |};
     querySelectorAll := [] |}.

(** A conversion of strings to numbers that knows no numeral; the code
    never converts a string. *)
Definition no_numeral (s : string) : ext Q := NaN.

(** ** The pieces of a flattened path

    What the output of the flattener holds for one segment of its input: a
    segment that is not a curve is kept as it is; a curve leaves nothing, or
    [L] segments of which the last is its declared end point. *)
Definition flattened {num : Type} (seg : PathSeg num)
    (piece : list (PathSeg num)) : Prop :=
  if bool_decide (type seg = "C")
  then piece = []
       ∨ ∃ samples,
           piece = samples
                   ++ [LineTo (index (values seg) 4) (index (values seg) 5)]
           ∧ Forall (λ s, type s = "L") samples
  else piece = [seg].

(** ** The older script

    [svgToGeojson.js] has the same flattener.  Its [getSVGDimensions] tests
    the width where the height is meant; its [svgToGeoJson] takes the bounds
    as an object with [getNorthWest] and [getSouthEast], flattens with the
    complexity 5 and gives every feature the one property [name: 'test']. *)

Module Legacy.

Record LatLng := { lat : Q; lng : Q }.

Record LatLngBounds := { getNorthWest : LatLng; getSouthEast : LatLng }.

Section Legacy.
Context (document : Engine Q) (StringToNumber : string → ext Q).

Definition getSVGDimensions (svgNode : SVGSVGElement) : SVGDimensions :=
  let w := Num (parseInt (getAttribute svgNode "width")) in
  let h := Num (parseInt (getAttribute svgNode "height")) in
  if negb (bool_decide (typeof w = "number")) || isNaN StringToNumber w
     || negb (bool_decide (typeof h = "number")) || isNaN StringToNumber w
  then
    match getAttribute svgNode "viewBox" with
    | None => NoDimensions
    | Some viewBox =>
        if bool_decide (viewBox = EmptyString)
           || negb (bool_decide
                      (typeof (Str (replace_0_9 viewBox)) = "number"))
        then NoDimensions
        else
          let wh := split_spaces viewBox EmptyString false in
          Dimensions (item wh 2) (item wh 3)
    end
  else Dimensions w h.

(** The body of [elems.forEach], for one element. *)
Definition convert (fuel : nat) (mapX mapY : ext Q → ext Q) (elem : Element)
  : outcome Feature :=
  match reducePathSegCurveComplexity document fuel (getPathData elem) 5 with
  | Returns pathData =>
      let mappedCoords := map (mapped mapX mapY) (coords pathData) in
      Returns
        {| properties := {[ "name" := "test" ]};
           geometry :=
             if bool_decide (tagName elem = "polyline")
             then LineString mappedCoords
             else Polygon [mappedCoords] |}
  | Throws e => Throws e
  | OutOfFuel => OutOfFuel
  end.

Fixpoint convertAll (fuel : nat) (mapX mapY : ext Q → ext Q)
    (elems : list Element) (geoJson : list Feature)
  : outcome (list Feature) :=
  match elems with
  | [] => Returns geoJson
  | elem :: elems' =>
      match convert fuel mapX mapY elem with
      | Returns f => convertAll fuel mapX mapY elems' (geoJson ++ [f])
      | Throws e => Throws e
      | OutOfFuel => OutOfFuel
      end
  end.

Definition svgToGeoJson (fuel : nat) (bounds : LatLngBounds)
    (svgNode : SVGSVGElement) : outcome FeatureCollection :=
  let nw := getNorthWest bounds in
  let se := getSouthEast bounds in
  let svgDims := getSVGDimensions svgNode in
  let elems := querySelectorAll svgNode in
  let mapX :=
    scaleLinear (parseFloat (lng nw), parseFloat (lng se))
      (Finite 0%Q, ToNumber StringToNumber (width svgDims)) in
  let mapY :=
    scaleLinear (parseFloat (lat nw), parseFloat (lat se))
      (Finite 0%Q, ToNumber StringToNumber (height svgDims)) in
  match convertAll fuel mapX mapY elems [] with
  | Returns fs => Returns {| features := fs |}
  | Throws e => Throws e
  | OutOfFuel => OutOfFuel
  end.

End Legacy.
End Legacy.

(** The positions of a geometry, ring after ring. *)
Definition positions (g : Geometry) : list Position :=
  match g with
  | LineString coordinates => coordinates
  | Polygon coordinates => concat coordinates
  end.

(** The drawing-space point that [pathData.map] takes for a segment. *)
Definition point_of (pathData : list (PathSeg Q)) (pathitem : PathSeg Q)
  : option Q * option Q :=
  if bool_decide (type pathitem = "Z") then
    match pathData !! 0%nat with
    | Some first => (index (values first) 0, index (values first) 1)
    | None => (None, None)
    end
  else (index (values pathitem) 0, index (values pathitem) 1).

(** ** More example data *)

(** [<svg width="100px" height="50.7">] with the square in it. *)
Definition with_units : SVGSVGElement :=
  {| element :=
       {| tagName := "svg";
          getAttribute := λ attr,
            if bool_decide (attr = "width") then Some "100px"
            else if bool_decide (attr = "height") then Some "50.7"
            else None;
          getPathData := [] |};
     querySelectorAll := [rect] |}.

(** [<svg width="100">], with no height, and the square in it. *)
Definition without_height : SVGSVGElement :=
  {| element :=
       {| tagName := "svg";
          getAttribute := attribute "width" "100";
          getPathData := [] |};
     querySelectorAll := [rect] |}.

(** [<svg>] without dimensions, with the square in it. *)
Definition unsized : SVGSVGElement :=
  {| element :=
       {| tagName := "svg"; getAttribute := λ _, None; getPathData := [] |};
     querySelectorAll := [rect] |}.

(** A shape whose path data begins with a curve. *)
Definition broken : Element :=
  {| tagName := "path";
     getAttribute := λ _, None;
     getPathData := [CurveTo 0 0 10 0 10 0] |}.

(** A shape without path data. *)
Definition blank : Element :=
  {| tagName := "path"; getAttribute := λ _, None; getPathData := [] |}.

(** Two subpaths, each closed by a [Z]. *)
Definition two_rings : list (PathSeg Q) :=
  [MoveTo 0 0;
   {| type := "L"; values := [Some 10%Q; Some 0%Q] |};
   ClosePath;
   MoveTo 50 50;
   {| type := "L"; values := [Some 60%Q; Some 50%Q] |};
   ClosePath].

(** The bounds north 10, east 10, south 0, west 0, by their north-west and
    south-east corners. *)
Definition corners : Legacy.LatLngBounds :=
  {| Legacy.getNorthWest := {| Legacy.lat := 10; Legacy.lng := 0 |};
     Legacy.getSouthEast := {| Legacy.lat := 0; Legacy.lng := 10 |} |}.

Definition rings : Element :=
  {| tagName := "path";
     getAttribute := λ _, None;
     getPathData := two_rings |}.

(** [<svg width="100" height="100">] with the square, the shape that
    begins with a curve and the shape without path data. *)
Definition mixed : SVGSVGElement :=
  {| element := drawing; querySelectorAll := [rect; broken; blank] |}.

(** The bounds of the examples, [[[10, 10], [0, 0]]]. *)
Definition ten : (Q * Q) * (Q * Q) := ((10, 10), (0, 0))%Q.

(** A feature under the one property of the older script. *)
Definition named_test (f : Feature) : Feature :=
  {| properties := {[ "name" := "test" ]}; geometry := geometry f |}.

(** One finite number below another. *)
Definition below (a b : ext Q) : Prop :=
  match a, b with
  | Finite p, Finite q => (p < q)%Q
  | _, _ => False
  end.

(** * Properties of the flattener *)

Section FlattenerFacts.
Context {num : Type} (document : Engine num).
Implicit Types (seg last : PathSeg num) (st : Loop num).
Implicit Types (segs : list (PathSeg num)).

Lemma each_other fuel complexity st seg :
  type seg ≠ "C" →
  each document fuel complexity st seg
  = Returns {| newSegs := newSegs st ++ [seg]; lastSeg := Some seg |}.
Proof.
  intros Hne. unfold each. rewrite bool_decide_eq_false_2; done.
Qed.

Lemma each_orphan fuel complexity st seg :
  type seg = "C" → lastSeg st = None →
  each document fuel complexity st seg = Throws TypeError.
Proof.
  intros Hc Hl. unfold each. rewrite bool_decide_eq_true_2 by done.
  by rewrite Hl.
Qed.

Lemma reduce_orphan fuel complexity seg (rest : list (PathSeg num)) :
  type seg = "C" →
  reducePathSegCurveComplexity document fuel (seg :: rest) complexity
  = Throws TypeError.
Proof.
  intros Hc. unfold reducePathSegCurveComplexity. cbn [forEach].
  by rewrite each_orphan.
Qed.

(** The rounded length is a finite integer that is not negative. *)
Lemma tmpPathLength_finite last seg :
  ∃ len, tmpPathLength document last seg = Finite len ∧ (0 ≤ len)%Z
         ∧ len = Qceiling (getTotalLength document (tmpPath last seg)).
Proof.
  eexists. split; [reflexivity|]. split; [|reflexivity].
  change 0%Z with (Qceiling 0).
  apply Qceiling_resp_le, getTotalLength_nonneg.
Qed.

Lemma Qceiling_quotient_pos (len c : Z) :
  (0 < len)%Z → (0 < c)%Z → (1 ≤ Qceiling (inject_Z len / inject_Z c))%Z.
Proof.
  intros Hlen Hc.
  assert (Hq : (0 < inject_Z len / inject_Z c)%Q).
  { apply Qlt_shift_div_l.
    - change 0%Q with (inject_Z 0). by rewrite <- Zlt_Qlt.
    - rewrite Qmult_0_l. change 0%Q with (inject_Z 0). by rewrite <- Zlt_Qlt. }
  assert (Hle := Qle_ceiling (inject_Z len / inject_Z c)).
  assert (H0 : (inject_Z 0 < inject_Z (Qceiling (inject_Z len / inject_Z c)))%Q).
  { eapply Qlt_le_trans; [exact Hq | exact Hle]. }
  rewrite <- Zlt_Qlt in H0. lia.
Qed.

(** With a positive complexity the step of a curve of positive rounded
    length is a positive integer. *)
Lemma lengthStep_positive last seg complexity len :
  tmpPathLength document last seg = Finite len →
  (0 < len)%Z → (0 < complexity)%Z →
  ∃ step, lengthStep document last seg complexity = Finite step
          ∧ (1 ≤ step)%Z.
Proof.
  intros Hlen Hpos Hc. unfold lengthStep. rewrite Hlen. simpl.
  destruct (Z.eqb_spec complexity 0) as [->|_]; [lia|].
  simpl. eexists. split; [reflexivity|]. by apply Qceiling_quotient_pos.
Qed.

Lemma marks_S d step k :
  marks d step (S k) = Finite d :: marks (d + step) step k.
Proof.
  unfold marks. simpl. f_equal; [f_equal; lia|].
  rewrite <- seq_shift, map_map. apply map_ext. intros i. f_equal. lia.
Qed.

(** The loop with a finite positive step ends, having sampled the path at
    [d], [d + step], ... *)
Lemma sample_finite tmp len step :
  (1 ≤ step)%Z →
  ∀ fuel d segs,
    (Z.to_nat (len - d + 1) < fuel)%nat →
    ∃ k, sample document fuel tmp (Finite d) (Finite len) (Finite step) segs
         = Some (segs ++ map (lineAt document tmp) (marks d step k)).
Proof.
  intros Hstep. induction fuel as [|fuel IH]; intros d segs Hfuel; [lia|].
  simpl. destruct (Z.leb_spec d len) as [Hle|Hgt].
  - destruct (IH (d + step)%Z (segs ++ [lineAt document tmp (Finite d)]))
      as [k Hk]; [lia|].
    exists (S k). rewrite Hk, marks_S. simpl. by rewrite <- app_assoc.
  - exists 0%nat. simpl. by rewrite app_nil_r.
Qed.

(** A curve of positive length, flattened with a positive complexity: the
    loop ends, and the callback appends the samples at [step], [2 * step],
    ... and then the declared end point. *)
Lemma each_curve fuel complexity st seg last :
  type seg = "C" → lastSeg st = Some last → (1 ≤ complexity)%Z →
  (0 < getTotalLength document (tmpPath last seg))%Q →
  (Z.to_nat (Qceiling (getTotalLength document (tmpPath last seg))) < fuel)%nat →
  ∃ step k,
    lengthStep document last seg complexity = Finite step ∧ (1 ≤ step)%Z ∧
    each document fuel complexity st seg
    = Returns
        {| newSegs :=
             newSegs st
             ++ map (lineAt document (tmpPath last seg)) (marks step step k)
             ++ [LineTo (index (values seg) 4) (index (values seg) 5)];
           lastSeg := Some seg |}.
Proof.
  intros Hc Hlast Hcx Hlen Hfuel.
  destruct (tmpPathLength_finite last seg) as (len & Hl & Hlen0 & Heq).
  rewrite <- Heq in Hfuel.
  assert (Hpos : (0 < len)%Z).
  { assert (H := Qle_ceiling (getTotalLength document (tmpPath last seg))).
    rewrite <- Heq in H.
    assert (H0 : (inject_Z 0 < inject_Z len)%Q)
      by (eapply Qlt_le_trans; [exact Hlen | exact H]).
    by rewrite <- Zlt_Qlt in H0. }
  destruct (lengthStep_positive last seg complexity len Hl Hpos)
    as (step & Hs & Hs1); [lia|].
  destruct (sample_finite (tmpPath last seg) len step Hs1 fuel step
              (newSegs st)) as [k Hk]; [lia|].
  exists step, k. split; [done|]. split; [done|].
  unfold each. rewrite bool_decide_eq_true_2 by done.
  rewrite Hlast, Hl, Hs. simpl.
  destruct (Z.eqb_spec len 0) as [?|_]; [lia|].
  destruct (Z.eqb_spec step 0) as [?|_]; [lia|].
  simpl. rewrite Hk. by rewrite <- app_assoc.
Qed.

(** The step for a positive complexity, in integers. *)
Lemma Qceiling_quotient (len c : Z) :
  (0 < c)%Z → Qceiling (inject_Z len / inject_Z c) = (- (- len / c))%Z.
Proof.
  intros Hc. destruct c as [|p|p]; try lia.
  unfold Qceiling, Qfloor, Qdiv, Qinv, Qmult, Qopp, inject_Z. simpl.
  f_equal. f_equal; lia.
Qed.

Lemma step_bounds (len c : Z) :
  (1 ≤ len)%Z → (1 ≤ c)%Z →
  let step := (- (- len / c))%Z in
  (1 ≤ step ≤ len)%Z ∧ (len ≤ step * c)%Z.
Proof.
  intros Hlen Hc step.
  assert (Hdiv := Z.div_mod (- len) c ltac:(lia)).
  assert (Hmod := Z.mod_pos_bound (- len) c ltac:(lia)).
  unfold step. nia.
Qed.

(** The loop with a finite positive step, with the number of its rounds. *)
Lemma sample_count tmp len step :
  (1 ≤ step)%Z →
  ∀ fuel d segs,
    (Z.to_nat (len - d + 1) < fuel)%nat →
    sample document fuel tmp (Finite d) (Finite len) (Finite step) segs
    = Some (segs ++ map (lineAt document tmp)
                      (marks d step (Z.to_nat ((len - d + step) / step)))).
Proof.
  intros Hstep. induction fuel as [|fuel IH]; intros d segs Hfuel; [lia|].
  cbn [sample js_le js_add]. destruct (Z.leb_spec d len) as [Hle|Hgt].
  - rewrite IH by lia.
    replace (len - (d + step) + step)%Z with (len - d)%Z by lia.
    replace (len - d + step)%Z with ((len - d) + 1 * step)%Z by lia.
    rewrite Z.div_add by lia.
    assert (0 ≤ (len - d) / step)%Z by (apply Z.div_pos; lia).
    rewrite Z2Nat.inj_add by lia. rewrite Nat.add_1_r, marks_S.
    simpl. by rewrite <- app_assoc.
  - assert ((len - d + step) / step ≤ 0)%Z as Hk.
    { destruct (Z.le_gt_cases 0 (len - d + step)).
      - rewrite Z.div_small; lia.
      - assert ((len - d + step) / step < 0)%Z; [|lia].
        apply Z.div_lt_upper_bound; lia. }
    replace (Z.to_nat _) with 0%nat by lia. simpl. by rewrite app_nil_r.
Qed.

(** The same with the number of the samples: the integer quotient of the
    rounded length by the step, so that the last sample is the last
    multiple of the step that is not beyond the rounded length. *)
Lemma each_curve_count fuel complexity st seg last :
  type seg = "C" → lastSeg st = Some last → (1 ≤ complexity)%Z →
  (0 < getTotalLength document (tmpPath last seg))%Q →
  (Z.to_nat (Qceiling (getTotalLength document (tmpPath last seg))) < fuel)%nat →
  let len := Qceiling (getTotalLength document (tmpPath last seg)) in
  let step := Qceiling (inject_Z len / inject_Z complexity) in
  (1 ≤ step ≤ len)%Z
  ∧ (1 ≤ len / step ≤ complexity)%Z
  ∧ each document fuel complexity st seg
    = Returns
        {| newSegs :=
             newSegs st
             ++ map (lineAt document (tmpPath last seg))
                  (marks step step (Z.to_nat (len / step)))
             ++ [LineTo (index (values seg) 4) (index (values seg) 5)];
           lastSeg := Some seg |}.
Proof.
  intros Hc Hlast Hcx Hpos Hfuel len step.
  assert (Hlen : (1 ≤ len)%Z).
  { assert (H := Qle_ceiling (getTotalLength document (tmpPath last seg))).
    assert (H0 : (inject_Z 0 < inject_Z len)%Q)
      by (eapply Qlt_le_trans; [exact Hpos | exact H]).
    rewrite <- Zlt_Qlt in H0. lia. }
  assert (Hstep : step = (- (- len / complexity))%Z)
    by (apply Qceiling_quotient; lia).
  destruct (step_bounds len complexity Hlen Hcx) as [[Hs1 Hs2] Hs3].
  rewrite <- Hstep in Hs1, Hs2, Hs3.
  split; [done|]. split.
  { split.
    - apply Z.div_le_lower_bound; lia.
    - apply Z.div_le_upper_bound; lia. }
  unfold each. rewrite bool_decide_eq_true_2 by done. rewrite Hlast.
  unfold lengthStep, tmpPathLength. cbn [Math_ceil js_div].
  fold len. destruct (Z.eqb_spec complexity 0) as [?|_]; [lia|].
  cbn [Math_ceil]. fold step. cbn [js_not].
  destruct (Z.eqb_spec len 0) as [?|_]; [lia|].
  destruct (Z.eqb_spec step 0) as [?|_]; [lia|].
  cbn [orb]. rewrite (sample_count _ len step Hs1) by (fold len in Hfuel; lia).
  replace (len - step + step)%Z with len by lia.
  rewrite <- app_assoc. reflexivity.
Qed.

(** A curve of length zero is passed over. *)
Lemma each_zero_length fuel complexity st seg last :
  type seg = "C" → lastSeg st = Some last →
  (getTotalLength document (tmpPath last seg) == 0)%Q →
  each document fuel complexity st seg = Returns st.
Proof.
  intros Hc Hlast Hz. unfold each. rewrite bool_decide_eq_true_2 by done.
  rewrite Hlast. unfold tmpPathLength at 1. simpl.
  by rewrite (Qceiling_comp _ _ Hz).
Qed.

(** With complexity 0 the step is [Infinity], no sample is taken, and what
    is left of a curve is its end point. *)
Lemma each_complexity_zero fuel st seg last :
  type seg = "C" → lastSeg st = Some last →
  each document (S fuel) 0 st seg
  = Returns
      (if (Qceiling (getTotalLength document (tmpPath last seg)) =? 0)%Z
       then st
       else {| newSegs :=
                 newSegs st
                 ++ [LineTo (index (values seg) 4) (index (values seg) 5)];
               lastSeg := Some seg |}).
Proof.
  intros Hc Hlast.
  destruct (tmpPathLength_finite last seg) as (len & Hl & Hlen0 & Heq).
  rewrite <- Heq. unfold each. rewrite bool_decide_eq_true_2 by done.
  rewrite Hlast. unfold lengthStep. rewrite Hl. simpl.
  destruct (Z.eqb_spec len 0) as [->|Hne]; [done|].
  destruct (Z.ltb_spec 0 len) as [_|?]; [|lia]. done.
Qed.

(** The rounded length is zero when the length is, and then only. *)
Lemma Qceiling_zero (q : Q) :
  (0 <= q)%Q → (Qceiling q =? 0)%Z = Qeq_bool q 0.
Proof.
  intros Hq. destruct (Qeq_bool q 0) eqn:Hz.
  - apply Qeq_bool_iff in Hz. rewrite (Qceiling_comp _ _ Hz). reflexivity.
  - apply Z.eqb_neq. intros Hc.
    assert (Hle := Qle_ceiling q). rewrite Hc in Hle.
    assert (Heq : (q == 0)%Q) by (by apply Qle_antisym).
    apply Qeq_bool_iff in Heq. congruence.
Qed.

(** The whole loop with complexity 0. *)
Lemma forEach_complexity_zero fuel (l : list (PathSeg num)) :
  ∀ st last,
    lastSeg st = Some last →
    ∃ st',
      forEach document (S fuel) 0 l st = Returns st'
      ∧ newSegs st' = newSegs st ++ at_complexity_zero document last l.
Proof.
  induction l as [|seg l IH]; intros st last Hlast.
  - exists st. simpl. by rewrite app_nil_r.
  - cbn [forEach at_complexity_zero].
    destruct (decide (type seg = "C")) as [Hc|Hc].
    + rewrite (each_complexity_zero fuel st seg last Hc Hlast).
      rewrite bool_decide_eq_true_2 by done.
      rewrite Qceiling_zero by apply getTotalLength_nonneg.
      destruct (Qeq_bool _ 0).
      * by apply IH.
      * destruct (IH {| newSegs :=
                          newSegs st
                          ++ [LineTo (index (values seg) 4)
                                (index (values seg) 5)];
                        lastSeg := Some seg |} seg eq_refl)
          as (st' & Hrun & Hsegs).
        exists st'. split; [exact Hrun|].
        rewrite Hsegs. simpl. by rewrite <- app_assoc.
    + rewrite (each_other (S fuel) 0 st seg Hc).
      rewrite bool_decide_eq_false_2 by done.
      destruct (IH {| newSegs := newSegs st ++ [seg]; lastSeg := Some seg |}
                  seg eq_refl) as (st' & Hrun & Hsegs).
      exists st'. split; [exact Hrun|].
      rewrite Hsegs. simpl. by rewrite <- app_assoc.
Qed.

(** The step for a negative complexity. *)
Lemma Qceiling_quotient_neg (len c : Z) :
  (c < 0)%Z → Qceiling (inject_Z len / inject_Z c) = (- (len / - c))%Z.
Proof.
  intros Hc. destruct c as [|p|p]; try lia.
  unfold Qceiling, Qfloor, Qdiv, Qinv, Qmult, Qopp, inject_Z. simpl.
  f_equal. f_equal; lia.
Qed.

(** With a negative step the condition of the loop never fails. *)
Lemma sample_negative_step tmp len step :
  (step ≤ -1)%Z →
  ∀ fuel d segs,
    (d ≤ len)%Z →
    sample document fuel tmp (Finite d) (Finite len) (Finite step) segs = None.
Proof.
  intros Hstep. induction fuel as [|fuel IH]; intros d segs Hd; [done|].
  simpl. destruct (Z.leb_spec d len) as [_|?]; [|lia]. apply IH. lia.
Qed.

(** A negative complexity: a curve shorter than its absolute value is
    passed over, and on any other curve the loop does not end. *)
Lemma each_complexity_negative fuel complexity st seg last :
  type seg = "C" → lastSeg st = Some last → (complexity < 0)%Z →
  each document fuel complexity st seg
  = if (Qceiling (getTotalLength document (tmpPath last seg))
        <? - complexity)%Z
    then Returns st else OutOfFuel.
Proof.
  intros Hc Hlast Hneg.
  destruct (tmpPathLength_finite last seg) as (len & Hl & Hlen0 & Heq).
  rewrite <- Heq. unfold each. rewrite bool_decide_eq_true_2 by done.
  rewrite Hlast. unfold lengthStep. rewrite Hl. simpl.
  destruct (Z.eqb_spec complexity 0) as [?|_]; [lia|]. simpl.
  rewrite Qceiling_quotient_neg by done.
  destruct (Z.ltb_spec len (- complexity)) as [Hlt|Hge].
  - rewrite Z.div_small by lia. simpl. by rewrite orb_true_r.
  - assert (1 ≤ len / - complexity)%Z.
    { apply Z.div_le_lower_bound; lia. }
    destruct (Z.eqb_spec len 0) as [?|_]; [lia|].
    destruct (Z.eqb_spec (- (len / - complexity)) 0) as [?|_]; [lia|].
    simpl. rewrite sample_negative_step; [done|lia|lia].
Qed.

(** More fuel does not change a result. *)
Lemma sample_more_fuel tmp len step fuel :
  ∀ d segs result,
    sample document fuel tmp d len step segs = Some result →
    sample document (S fuel) tmp d len step segs = Some result.
Proof.
  induction fuel as [|fuel IH]; intros d segs result Hrun; [done|].
  cbn [sample] in Hrun. cbn [sample]. destruct (js_le d len); [|done].
  by apply IH in Hrun.
Qed.

Lemma each_more_fuel fuel complexity st seg st' :
  each document fuel complexity st seg = Returns st' →
  each document (S fuel) complexity st seg = Returns st'.
Proof.
  unfold each. case_bool_decide; [|done].
  destruct (lastSeg st) as [last|]; [|done].
  destruct (_ || _); [done|].
  destruct (sample document fuel _ _ _ _ _) as [segs|] eqn:Hrun; [|done].
  by rewrite (sample_more_fuel _ _ _ _ _ _ _ Hrun).
Qed.

Lemma forEach_more_fuel fuel complexity (l : list (PathSeg num)) :
  ∀ st st',
    forEach document fuel complexity l st = Returns st' →
    forEach document (S fuel) complexity l st = Returns st'.
Proof.
  induction l as [|seg l IH]; intros st st' Hrun; [done|].
  cbn [forEach] in Hrun. cbn [forEach].
  destruct (each document fuel complexity st seg) as [st1| |] eqn:Hstep;
    [|done..].
  rewrite (each_more_fuel _ _ _ _ _ Hstep). by apply IH.
Qed.

Lemma forEach_fuel_le fuel fuel' complexity (l : list (PathSeg num)) st st' :
  (fuel ≤ fuel')%nat →
  forEach document fuel complexity l st = Returns st' →
  forEach document fuel' complexity l st = Returns st'.
Proof.
  induction 1 as [|fuel' _ IH]; [done|].
  intros Hrun. by apply forEach_more_fuel, IH.
Qed.

Lemma each_fuel_le fuel fuel' complexity st seg st' :
  (fuel ≤ fuel')%nat →
  each document fuel complexity st seg = Returns st' →
  each document fuel' complexity st seg = Returns st'.
Proof.
  induction 1 as [|fuel' _ IH]; [done|].
  intros Hrun. by apply each_more_fuel, IH.
Qed.

(** With a complexity of 1 or more, one round of the loop on a segment
    that has a segment before it returns. *)
Lemma each_returns complexity st seg :
  (1 ≤ complexity)%Z → is_Some (lastSeg st) →
  ∃ fuel st',
    each document fuel complexity st seg = Returns st'
    ∧ is_Some (lastSeg st').
Proof.
  intros Hcx [last Hlast]. destruct (decide (type seg = "C")) as [Hc|Hc].
  - destruct (Qle_lt_or_eq _ _ (getTotalLength_nonneg document
                                  (tmpPath last seg))) as [Hpos|Hzero].
    + edestruct (each_curve (S (Z.to_nat (Qceiling (getTotalLength document
                                                      (tmpPath last seg)))))
                   complexity st seg last) as (step & k & _ & _ & Hrun);
        [done..|lia|].
      eexists _, _. split; [exact Hrun|]. by eexists.
    + exists 0%nat, st. split; [|by eexists].
      apply (each_zero_length 0 complexity st seg last); [done..|].
      by symmetry.
  - exists 0%nat. eexists. split; [by apply each_other|]. by eexists.
Qed.

Lemma forEach_returns complexity (l : list (PathSeg num)) :
  (1 ≤ complexity)%Z →
  ∀ st, is_Some (lastSeg st) →
    ∃ fuel st', forEach document fuel complexity l st = Returns st'.
Proof.
  intros Hcx. induction l as [|seg l IH]; intros st Hlast.
  - by exists 0%nat, st.
  - destruct (each_returns complexity st seg Hcx Hlast)
      as (fuel1 & st1 & Hstep & Hlast1).
    destruct (IH st1 Hlast1) as (fuel2 & st' & Hrun).
    exists (fuel1 `max` fuel2)%nat, st'. cbn [forEach].
    rewrite (each_fuel_le fuel1 _ _ _ _ _ (Nat.le_max_l _ _) Hstep).
    exact (forEach_fuel_le fuel2 _ _ _ _ _ (Nat.le_max_r _ _) Hrun).
Qed.

(** X7.  The flattener returns: with a complexity of 1 or more, on a list that
    does not begin with a curve, there is an amount of fuel from which on the
    call gives one and the same list. *)
Lemma flattener_returns complexity (l : list (PathSeg num)) :
  (1 ≤ complexity)%Z →
  (∀ seg rest, l = seg :: rest → type seg ≠ "C") →
  ∃ fuel out, ∀ fuel',
    (fuel ≤ fuel')%nat →
    reducePathSegCurveComplexity document fuel' l complexity = Returns out.
Proof.
  intros Hcx Hhead. unfold reducePathSegCurveComplexity.
  destruct l as [|seg rest].
  - by exists 0%nat, [].
  - specialize (Hhead seg rest eq_refl).
    destruct (forEach_returns complexity rest Hcx
                {| newSegs := [seg]; lastSeg := Some seg |})
      as (fuel & st' & Hrun); [by eexists|].
    exists fuel, (newSegs st'). intros fuel' Hle. cbn [forEach].
    rewrite each_other by done. simpl.
    by rewrite (forEach_fuel_le fuel fuel' _ _ _ _ Hle Hrun).
Qed.

End FlattenerFacts.

Section FlattenerClaims.
Context {num : Type} (document : Engine num).
Implicit Types (seg last : PathSeg num) (st : Loop num).

(** C1 (as amended).  A curve with a start anchor and a length that is not
    zero, flattened with a complexity [N >= 1]: everything the flattener
    emits for it is an [L] segment, and the last one carries the declared
    end point of the curve, [values[4]] and [values[5]], copied as they
    are. *)
Theorem curve_ends_at_declared_point fuel complexity st seg last :
  type seg = "C" → lastSeg st = Some last → (1 ≤ complexity)%Z →
  (0 < getTotalLength document (tmpPath last seg))%Q →
  (Z.to_nat (Qceiling (getTotalLength document (tmpPath last seg))) < fuel)%nat →
  ∃ samples,
    each document fuel complexity st seg
    = Returns
        {| newSegs :=
             newSegs st ++ samples
             ++ [LineTo (index (values seg) 4) (index (values seg) 5)];
           lastSeg := Some seg |}
    ∧ Forall (λ s, type s = "L") samples.
Proof.
  intros Hc Hlast Hcx Hlen Hfuel.
  destruct (each_curve document fuel complexity st seg last Hc Hlast Hcx
              Hlen Hfuel) as (step & k & _ & _ & Hrun).
  eexists. split; [exact Hrun|].
  apply Forall_forall. intros s Hs.
  apply list_elem_of_fmap in Hs as (d & -> & _). reflexivity.
Qed.

(** C6 (as amended).  A curve whose total length is zero: the flattener
    emits nothing for it and raises nothing, and the state of the loop is
    what it was. *)
Theorem zero_length_curve_is_skipped fuel complexity st seg last :
  type seg = "C" → lastSeg st = Some last →
  (getTotalLength document (tmpPath last seg) == 0)%Q →
  each document fuel complexity st seg = Returns st.
Proof. apply each_zero_length. Qed.

(** C7 (as amended).  A curve of length that is not zero, flattened with a
    complexity [N >= 1].  With [len = ceil(length)] and
    [step = ceil(len / N)], the samples are the points of the curve at the
    distances [step], [2 * step], ..., [k * step] along it, [k] being the
    integer quotient of [len] by [step]: two samples in a row are [step]
    apart, there are between 1 and [N] of them, and the last one lies at
    most at [len] and less than one step before it.  The segment emitted
    after them is the declared end point, which is not a sample: the curve
    ends less than one step after the last sample. *)
Theorem samples_are_step_apart fuel complexity st seg last :
  type seg = "C" → lastSeg st = Some last → (1 ≤ complexity)%Z →
  (0 < getTotalLength document (tmpPath last seg))%Q →
  (Z.to_nat (Qceiling (getTotalLength document (tmpPath last seg))) < fuel)%nat →
  let len := Qceiling (getTotalLength document (tmpPath last seg)) in
  let step := Qceiling (inject_Z len / inject_Z complexity) in
  let k := (len / step)%Z in
  (1 ≤ step)%Z
  ∧ (1 ≤ k ≤ complexity)%Z
  ∧ (k * step ≤ len < (k + 1) * step)%Z
  ∧ (getTotalLength document (tmpPath last seg)
     < inject_Z ((k + 1) * step))%Q
  ∧ each document fuel complexity st seg
    = Returns
        {| newSegs :=
             newSegs st
             ++ map (lineAt document (tmpPath last seg))
                  (map (λ i : nat, Finite (Z.of_nat (S i) * step)%Z)
                     (seq 0 (Z.to_nat k)))
             ++ [LineTo (index (values seg) 4) (index (values seg) 5)];
           lastSeg := Some seg |}.
Proof.
  intros Hc Hlast Hcx Hlen Hfuel len step k.
  destruct (each_curve_count document fuel complexity st seg last Hc Hlast
              Hcx Hlen Hfuel) as ([Hs1 Hs2] & Hk & Hrun).
  fold len in Hs1, Hs2, Hk, Hrun. fold step in Hs1, Hs2, Hk, Hrun.
  fold k in Hk, Hrun.
  assert (Hlast_sample : (k * step ≤ len < (k + 1) * step)%Z).
  { assert (Hdiv := Z.div_mod len step ltac:(lia)).
    assert (Hmod := Z.mod_pos_bound len step ltac:(lia)).
    fold k in Hdiv. lia. }
  split; [done|]. split; [done|]. split; [done|]. split.
  - eapply Qle_lt_trans; [apply Qle_ceiling|]. fold len.
    rewrite <- Zlt_Qlt. lia.
  - rewrite Hrun.
    assert (marks step step (Z.to_nat k)
            = map (λ i : nat, Finite (Z.of_nat (S i) * step)%Z)
                (seq 0 (Z.to_nat k)))
      as -> by (apply map_ext; intros i; f_equal; lia).
    reflexivity.
Qed.

(** C4 (as amended).  A complexity of 0 or below is not refused.  With
    complexity 0, one round of the loop on a curve returns: it leaves the
    state as it was when the length of the curve is zero, and else it adds
    the declared end point of the curve and nothing more; so a list that
    does not begin with a curve is flattened without failure into its first
    segment and what [at_complexity_zero] lists for the others.  With a
    negative complexity, a curve shorter than the absolute value of the
    complexity is passed over, and on a longer one the sampling loop never
    ends. *)
Theorem complexity_is_not_checked :
  (∀ fuel st seg last,
     type seg = "C" → lastSeg st = Some last →
     each document (S fuel) 0 st seg
     = Returns
         (if Qeq_bool (getTotalLength document (tmpPath last seg)) 0
          then st
          else {| newSegs :=
                    newSegs st
                    ++ [LineTo (index (values seg) 4) (index (values seg) 5)];
                  lastSeg := Some seg |}))
  ∧ (∀ fuel seg (rest : list (PathSeg num)),
       type seg ≠ "C" →
       reducePathSegCurveComplexity document (S fuel) (seg :: rest) 0
       = Returns (seg :: at_complexity_zero document seg rest))
  ∧ (∀ fuel complexity st seg last,
       type seg = "C" → lastSeg st = Some last → (complexity < 0)%Z →
       each document fuel complexity st seg
       = if (Qceiling (getTotalLength document (tmpPath last seg))
             <? - complexity)%Z
         then Returns st else OutOfFuel).
Proof.
  split; [|split].
  - intros fuel st seg last Hc Hlast.
    rewrite (each_complexity_zero document fuel st seg last Hc Hlast).
    by rewrite Qceiling_zero by apply getTotalLength_nonneg.
  - intros fuel seg rest Hc. unfold reducePathSegCurveComplexity.
    cbn [forEach]. rewrite (each_other document (S fuel) 0 _ seg Hc).
    cbn [newSegs app].
    destruct (forEach_complexity_zero document fuel rest
                {| newSegs := [seg]; lastSeg := Some seg |} seg eq_refl)
      as (st' & Hrun & Hsegs).
    rewrite Hrun, Hsegs. reflexivity.
  - intros. by apply each_complexity_negative.
Qed.

End FlattenerClaims.

(** C1, witness: the straight stroke of length 10 with complexity 5. *)
Lemma curve_ends_at_declared_point_witness :
  ∃ samples,
    each stroke_browser 11 5 at_origin (CurveTo 0 0 10 0 10 0)
    = Returns
        {| newSegs :=
             newSegs at_origin ++ samples
             ++ [LineTo (Some 10%Q) (Some 0%Q)];
           lastSeg := Some (CurveTo 0 0 10 0 10 0) |}
    ∧ Forall (λ s, type s = "L") samples.
Proof.
  apply (curve_ends_at_declared_point stroke_browser 11 5 at_origin
           (CurveTo 0 0 10 0 10 0) (MoveTo 0 0));
    [reflexivity | reflexivity | lia | reflexivity | vm_compute; lia].
Defined.

(** C1, counterexample.  The stroke of length 10 with complexity 5 gets six
    new segments, whatever the fuel: the loop reaches the distance 10 and
    the end point is added after it.  Measured as 10.001 it gets four.  The
    curve of length 0 gets none. *)
Lemma curve_segments_are_not_complexity_many :
  (¬ ∃ fuel st' new,
       each stroke_browser fuel 5 at_origin (CurveTo 0 0 10 0 10 0)
       = Returns st'
       ∧ newSegs st' = newSegs at_origin ++ new ∧ length new = 5%nat)
  ∧ (¬ ∃ fuel st' new,
         each long_stroke_browser fuel 5 at_origin (CurveTo 0 0 10 0 10 0)
         = Returns st'
         ∧ newSegs st' = newSegs at_origin ++ new ∧ length new = 5%nat)
  ∧ (¬ ∃ fuel st' new,
         each dot_browser fuel 5
           {| newSegs := [MoveTo 5 5]; lastSeg := Some (MoveTo 5 5) |}
           (CurveTo 5 5 5 5 5 5)
         = Returns st'
         ∧ newSegs st' = [MoveTo 5 5] ++ new ∧ length new = 5%nat).
Proof.
  split; [|split].
  - intros (fuel & st' & new & Hrun & Hsegs & Hlen).
    do 6 (destruct fuel as [|fuel]; [vm_compute in Hrun; discriminate Hrun|]).
    vm_compute in Hrun. injection Hrun as <-.
    simpl in Hsegs. injection Hsegs as <-. discriminate Hlen.
  - intros (fuel & st' & new & Hrun & Hsegs & Hlen).
    do 4 (destruct fuel as [|fuel]; [vm_compute in Hrun; discriminate Hrun|]).
    vm_compute in Hrun. injection Hrun as <-.
    simpl in Hsegs. injection Hsegs as <-. discriminate Hlen.
  - intros (fuel & st' & new & Hrun & Hsegs & Hlen).
    rewrite (each_zero_length dot_browser fuel 5 _ _ (MoveTo 5 5)) in Hrun
      by reflexivity.
    injection Hrun as <-. simpl in Hsegs.
    injection Hsegs as <-. discriminate Hlen.
Qed.

(** C4, witness: complexity 0 on the curve of the stroke and on the
    stroke, and complexity -4 on its curve. *)
Lemma complexity_is_not_checked_witness :
  each stroke_browser 1 0 at_origin (CurveTo 0 0 10 0 10 0)
  = Returns
      {| newSegs := newSegs at_origin ++ [LineTo (Some 10%Q) (Some 0%Q)];
         lastSeg := Some (CurveTo 0 0 10 0 10 0) |}
  ∧ reducePathSegCurveComplexity stroke_browser 1 stroke 0
    = Returns
        (MoveTo 0 0
         :: at_complexity_zero stroke_browser (MoveTo 0 0)
              [CurveTo 0 0 10 0 10 0])
  ∧ each stroke_browser 3 (-4) at_origin (CurveTo 0 0 10 0 10 0)
    = OutOfFuel.
Proof.
  split; [|split].
  - apply (proj1 (complexity_is_not_checked stroke_browser) 0%nat at_origin
             (CurveTo 0 0 10 0 10 0) (MoveTo 0 0));
      reflexivity.
  - apply (proj1 (proj2 (complexity_is_not_checked stroke_browser)) 0%nat
             (MoveTo 0 0) [CurveTo 0 0 10 0 10 0]).
    discriminate.
  - apply (proj2 (proj2 (complexity_is_not_checked stroke_browser)) 3%nat
             (-4)%Z at_origin (CurveTo 0 0 10 0 10 0) (MoveTo 0 0));
      [reflexivity | reflexivity | lia].
Defined.

(** C4, counterexample.  Complexity 0 and complexity -20 on the stroke:
    both calls return, the first with the end point of the curve alone, the
    second without the curve. *)
Lemma zero_and_negative_complexity_return :
  reducePathSegCurveComplexity stroke_browser 1 stroke 0
  = Returns [MoveTo 0 0; LineTo (Some 10%Q) (Some 0%Q)]
  ∧ reducePathSegCurveComplexity stroke_browser 1 stroke (-20)
    = Returns [MoveTo 0 0].
Proof. split; reflexivity. Qed.

(** C6, witness: the curve of length 0. *)
Lemma zero_length_curve_is_skipped_witness :
  each dot_browser 3 5
    {| newSegs := [MoveTo 5 5]; lastSeg := Some (MoveTo 5 5) |}
    (CurveTo 5 5 5 5 5 5)
  = Returns {| newSegs := [MoveTo 5 5]; lastSeg := Some (MoveTo 5 5) |}.
Proof.
  apply (zero_length_curve_is_skipped dot_browser 3 5 _
           (CurveTo 5 5 5 5 5 5) (MoveTo 5 5));
    reflexivity.
Defined.

(** C6, counterexample.  The hairpin starts and ends at the origin and its
    length is 9/2: it is flattened into six segments.  The speck is 1/1000
    long: it is flattened into two. *)
Lemma closed_and_tiny_curves_are_flattened :
  slice_last2 (values (MoveTo 0 0))
  = [index (values (CurveTo 3 0 3 0 0 0)) 4;
     index (values (CurveTo 3 0 3 0 0 0)) 5]
  ∧ reducePathSegCurveComplexity hairpin_browser 6 hairpin 5
    = Returns
        [MoveTo 0 0;
         LineTo (Some 1%Q) (Some 0%Q); LineTo (Some 2%Q) (Some 0%Q);
         LineTo (Some (3 # 2)%Q) (Some 0%Q);
         LineTo (Some (1 # 2)%Q) (Some 0%Q);
         LineTo (Some 0%Q) (Some 0%Q); LineTo (Some 0%Q) (Some 0%Q)]
  ∧ reducePathSegCurveComplexity speck_browser 2 speck 5
    = Returns
        [MoveTo 0 0;
         LineTo (Some (1 # 1000)%Q) (Some 0%Q);
         LineTo (Some (1 # 1000)%Q) (Some 0%Q)].
Proof. repeat split; vm_compute; reflexivity. Qed.

(** C7, witness: the stroke of length 10 with complexity 3, where the step
    is 4 and the samples are at 4 and 8. *)
Lemma samples_are_step_apart_witness :
  (1 ≤ 4)%Z
  ∧ (1 ≤ 2 ≤ 3)%Z
  ∧ (2 * 4 ≤ 10 < (2 + 1) * 4)%Z
  ∧ (10 < inject_Z ((2 + 1) * 4))%Q
  ∧ each stroke_browser 11 3 at_origin (CurveTo 0 0 10 0 10 0)
    = Returns
        {| newSegs :=
             newSegs at_origin
             ++ map (lineAt stroke_browser
                       (tmpPath (MoveTo 0 0) (CurveTo 0 0 10 0 10 0)))
                  (map (λ i : nat, Finite (Z.of_nat (S i) * 4)%Z)
                     (seq 0 (Z.to_nat 2)))
             ++ [LineTo (Some 10%Q) (Some 0%Q)];
           lastSeg := Some (CurveTo 0 0 10 0 10 0) |}.
Proof.
  apply (samples_are_step_apart stroke_browser 11 3 at_origin
           (CurveTo 0 0 10 0 10 0) (MoveTo 0 0));
    [reflexivity | reflexivity | lia | reflexivity | vm_compute; lia].
Defined.

(** C7, counterexample.  The stroke of length 10 with complexity 3: the
    point of the stroke at distance [d] is [(d, 0)], so the three points
    emitted lie at the distances 4, 8 and 10, and not at 10/3, 20/3 and 10;
    the last interval is half the others. *)
Lemma samples_are_not_at_equal_fractions :
  reducePathSegCurveComplexity stroke_browser 4 stroke 3
  = Returns
      [MoveTo 0 0;
       LineTo (Some 4%Q) (Some 0%Q); LineTo (Some 8%Q) (Some 0%Q);
       LineTo (Some 10%Q) (Some 0%Q)]
  ∧ ¬ (4 == 10 * (1 # 3))%Q
  ∧ ¬ (8 - 4 == 10 - 8)%Q.
Proof. split; [reflexivity|]. split; discriminate. Qed.

(** * Properties of [getSVGDimensions] *)

Section DimensionFacts.
Context (StringToNumber : string → ext Q).

(** The branch that reads the [viewBox] never gives dimensions: the test
    [typeof ... !== 'number'] holds of every string. *)
Lemma viewBox_is_never_used (svgNode : SVGSVGElement) :
  parseInt (getAttribute svgNode "width") = NaN
  ∨ parseInt (getAttribute svgNode "height") = NaN →
  getSVGDimensions StringToNumber svgNode = NoDimensions.
Proof.
  intros Hnan. unfold getSVGDimensions. cbn [typeof].
  rewrite (bool_decide_eq_true_2 ("number" = "number")) by done.
  rewrite (bool_decide_eq_false_2 ("string" = "number")) by done.
  cbn [negb].
  assert (false || isNaN StringToNumber
                     (Num (parseInt (getAttribute svgNode "width")))
          || false
          || isNaN StringToNumber
               (Num (parseInt (getAttribute svgNode "height"))) = true)
    as ->.
  { destruct Hnan as [-> | ->]; [done|]. by rewrite orb_true_r. }
  destruct (getAttribute svgNode "viewBox"); [|done].
  by rewrite orb_true_r.
Qed.

(** C2 (as amended).  When the [width] and the [height] attribute both
    start with an integer, as [parseInt] reads it in base 10, these two
    integers are the dimensions, whatever their sign; when one of them does
    not and there is no [viewBox] attribute, or an empty one, the result is
    [false]. *)
Theorem declared_dimensions_are_used (svgNode : SVGSVGElement) :
  (∀ w h,
     parseInt (getAttribute svgNode "width") = Finite w →
     parseInt (getAttribute svgNode "height") = Finite h →
     getSVGDimensions StringToNumber svgNode
     = Dimensions (Num (Finite w)) (Num (Finite h)))
  ∧ (parseInt (getAttribute svgNode "width") = NaN
     ∨ parseInt (getAttribute svgNode "height") = NaN →
     getAttribute svgNode "viewBox" = None
     ∨ getAttribute svgNode "viewBox" = Some EmptyString →
     getSVGDimensions StringToNumber svgNode = NoDimensions).
Proof.
  split.
  - intros w h Hw Hh. unfold getSVGDimensions. cbn [typeof].
    rewrite (bool_decide_eq_true_2 ("number" = "number")) by done.
    by rewrite Hw, Hh.
  - intros Hnan _. by apply viewBox_is_never_used.
Qed.

End DimensionFacts.

(** C2, witness: [width="100" height="100"], and no attribute at all. *)
Lemma declared_dimensions_are_used_witness :
  getSVGDimensions no_numeral drawing
  = Dimensions (Num (Finite 100%Z)) (Num (Finite 100%Z))
  ∧ getSVGDimensions no_numeral bare = NoDimensions.
Proof.
  split.
  - apply (proj1 (declared_dimensions_are_used no_numeral drawing));
      reflexivity.
  - apply (proj2 (declared_dimensions_are_used no_numeral bare));
      left; reflexivity.
Defined.

(** C2, counterexample.  [width="0" height="0"] and no [viewBox]: neither
    source gives two positive numbers, and the result is the object with
    width 0 and height 0, not a failure.  [viewBox="0 0 100 50"] and no
    width or height: the third and fourth items are 100 and 50, and the
    result is [false]. *)
Lemma dimensions_are_neither_checked_nor_read_from_viewBox :
  getSVGDimensions no_numeral collapsed
  = Dimensions (Num (Finite 0%Z)) (Num (Finite 0%Z))
  ∧ getAttribute collapsed "viewBox" = None
  ∧ parseInt (getAttribute boxed "width") = NaN
  ∧ parseInt (getAttribute boxed "height") = NaN
  ∧ (∃ viewBox,
       getAttribute boxed "viewBox" = Some viewBox
       ∧ item (split_spaces viewBox EmptyString false) 2 = Str "100"
       ∧ item (split_spaces viewBox EmptyString false) 3 = Str "50")
  ∧ getSVGDimensions no_numeral boxed = NoDimensions.
Proof.
  repeat split; try reflexivity.
  exists "0 0 100 50". repeat split; reflexivity.
Qed.

(** * Properties of the projection *)

Lemma scaleLinear_finite r0 r1 d1 v :
  ¬ (d1 == 0)%Q →
  equals (scaleLinear (Finite r0, Finite r1) (Finite 0%Q, Finite d1) (Finite v))
         (Finite (r0 + (r1 - r0) * (v / d1))%Q).
Proof.
  intros Hd. simpl.
  destruct (Qeq_bool (d1 - 0) 0) eqn:Hb.
  - apply Qeq_bool_eq in Hb. exfalso. apply Hd. rewrite <- Hb. ring.
  - apply Qplus_comp; [reflexivity|]. apply Qmult_comp; [reflexivity|].
    apply Qmult_comp; [ring|]. apply Qinv_comp. ring.
Qed.

(** C3 (as amended).  With a width and a height that are not zero, the
    origin of the drawing goes to [west, north] and its far corner to
    [east, south]; each axis has its own linear map, nothing is clamped, and
    the vertical one runs from north at 0 to south at the height. *)
Theorem corners_go_to_corners (north east south west width height : Q) :
  ¬ (width == 0)%Q → ¬ (height == 0)%Q →
  let bounds := ((north, east), (south, west)) in
  let project :=
    mapped (mapX bounds (Finite width)) (mapY bounds (Finite height)) in
  equals (project (Some 0%Q, Some 0%Q)).1 (Finite west)
  ∧ equals (project (Some 0%Q, Some 0%Q)).2 (Finite north)
  ∧ equals (project (Some width, Some height)).1 (Finite east)
  ∧ equals (project (Some width, Some height)).2 (Finite south)
  ∧ ∀ a b,
      equals (project (Some a, Some b)).1
             (Finite (west + (east - west) * (a / width))%Q)
      ∧ equals (project (Some a, Some b)).2
               (Finite (north + (south - north) * (b / height))%Q).
Proof.
  intros Hw Hh bounds project.
  assert (Hx : ∀ v, equals (mapX bounds (Finite width) (Finite v))
                      (Finite (west + (east - west) * (v / width))%Q))
    by (intros v; by apply scaleLinear_finite).
  assert (Hy : ∀ v, equals (mapY bounds (Finite height) (Finite v))
                      (Finite (north + (south - north) * (v / height))%Q))
    by (intros v; by apply scaleLinear_finite).
  unfold project, mapped. cbn [fst snd number].
  repeat split; try apply Hx; try apply Hy.
  - specialize (Hx 0%Q). destruct (mapX _ _ _); try done.
    simpl in *. rewrite Hx. field. done.
  - specialize (Hy 0%Q). destruct (mapY _ _ _); try done.
    simpl in *. rewrite Hy. field. done.
  - specialize (Hx width). destruct (mapX _ _ _); try done.
    simpl in *. rewrite Hx. field. done.
  - specialize (Hy height). destruct (mapY _ _ _); try done.
    simpl in *. rewrite Hy. field. done.
Qed.

(** C3, witness: a drawing of 100 by 100 in the bounds
    [[[10, 10], [0, 0]]]. *)
Lemma corners_go_to_corners_witness :
  let bounds := ((10, 10), (0, 0))%Q in
  let project := mapped (mapX bounds (Finite 100%Q)) (mapY bounds (Finite 100%Q)) in
  equals (project (Some 0%Q, Some 0%Q)).1 (Finite 0%Q)
  ∧ equals (project (Some 0%Q, Some 0%Q)).2 (Finite 10%Q)
  ∧ equals (project (Some 100%Q, Some 100%Q)).1 (Finite 10%Q)
  ∧ equals (project (Some 100%Q, Some 100%Q)).2 (Finite 0%Q)
  ∧ ∀ a b,
      equals (project (Some a, Some b)).1
             (Finite (0 + (10 - 0) * (a / 100))%Q)
      ∧ equals (project (Some a, Some b)).2
               (Finite (10 + (0 - 10) * (b / 100))%Q).
Proof.
  apply (corners_go_to_corners 10 10 0 0 100 100); intros H; discriminate H.
Defined.

(** C3, counterexample.  [<svg width="0" height="0">] in the bounds
    [[[10, 10], [0, 0]]]: the width and the height are the finite number 0,
    so the origin and the far corner are the same point [[0, 0]], and it does
    not go both to west = 0 and to east = 10, nor both to north = 10 and to
    south = 0. *)
Lemma collapsed_drawing_has_one_corner :
  let bounds := ((10, 10), (0, 0))%Q in
  let dims := getSVGDimensions no_numeral collapsed in
  let project :=
    mapped (mapX bounds (ToNumber no_numeral (width dims)))
      (mapY bounds (ToNumber no_numeral (height dims))) in
  ToNumber no_numeral (width dims) = Finite 0%Q
  ∧ ToNumber no_numeral (height dims) = Finite 0%Q
  ∧ ¬ (equals (project (Some 0%Q, Some 0%Q)).1 (Finite 0%Q)
       ∧ equals (project (Some 0%Q, Some 0%Q)).1 (Finite 10%Q))
  ∧ ¬ (equals (project (Some 0%Q, Some 0%Q)).2 (Finite 10%Q)
       ∧ equals (project (Some 0%Q, Some 0%Q)).2 (Finite 0%Q)).
Proof.
  repeat split; try reflexivity.
  - intros [_ H]. discriminate H.
  - intros [_ H]. discriminate H.
Qed.

(** * Properties of [svgToGeoJson] *)



(** What [attributes.forEach] leaves in [properties], from any start. *)
Lemma collect_from (elem : Element) (attributes : list string)
    (start : gmap string string) name value :
  (∀ n v, start !! n = Some v → getAttribute elem n = Some v ∧ v ≠ EmptyString) →
  foldl (λ properties attr,
           match getAttribute elem attr with
           | Some value =>
               if bool_decide (value = EmptyString) then properties
               else assign properties attr value
           | None => properties
           end)
        start attributes !! name = Some value
  ↔ (name ∈ attributes ∧ name ≠ "__proto__"
     ∧ getAttribute elem name = Some value ∧ value ≠ EmptyString)
    ∨ start !! name = Some value.
Proof.
  revert start. induction attributes as [|attr attributes IH];
    intros start Hstart; simpl.
  - split; [by right|]. intros [[Hin _]|H]; [|done]. by apply elem_of_nil in Hin.
  - rewrite IH; clear IH.
    + rewrite elem_of_cons. unfold assign.
      destruct (getAttribute elem attr) as [v|] eqn:Hattr;
        [case_bool_decide as Hv; [|case_bool_decide as Hp]|].
      * subst v. split.
        -- intros [(Hin & Hget)|H]; [left|by right]. split; [by right|done].
        -- intros [([->|Hin] & Hp & Hget & Hne)|H]; [congruence|by left|by right].
      * split.
        -- intros [(Hin & Hget)|H]; [left|by right]. split; [by right|done].
        -- intros [([->|Hin] & Hnp & Hget & Hne)|H]; [done|by left|by right].
      * destruct (decide (attr = name)) as [->|Hneq].
        -- rewrite lookup_insert_eq. split.
           ++ intros [(Hin & Hget)|[= <-]]; left; [split; [by right|done]|].
              split; [by left|done].
           ++ intros [(_ & _ & Hget & _)|H]; right; [congruence|].
              destruct (Hstart _ _ H) as [Hget _]. congruence.
        -- rewrite lookup_insert_ne by done. split.
           ++ intros [(Hin & Hget)|H]; [left|by right]. split; [by right|done].
           ++ intros [([->|Hin] & Hget)|H]; [done|by left|by right].
      * split.
        -- intros [(Hin & Hget)|H]; [left|by right]. split; [by right|done].
        -- intros [([->|Hin] & Hnp & Hget & Hne)|H]; [congruence|by left|by right].
    + intros n v. unfold assign.
      destruct (getAttribute elem attr) as [w|] eqn:Hattr; [|by apply Hstart].
      case_bool_decide as Hw; [by apply Hstart|].
      case_bool_decide as Hp; [by apply Hstart|].
      destruct (decide (attr = n)) as [->|Hneq].
      * rewrite lookup_insert_eq. intros [= <-]. done.
      * rewrite lookup_insert_ne by done. apply Hstart.
Qed.

Lemma collect_lookup (elem : Element) (attributes : list string) name value :
  collect elem attributes !! name = Some value
  ↔ name ∈ attributes ∧ name ≠ "__proto__"
    ∧ getAttribute elem name = Some value ∧ value ≠ EmptyString.
Proof.
  unfold collect. rewrite collect_from.
  - split; [|by left]. intros [H|H]; [done|]. by rewrite lookup_empty in H.
  - intros n v H. by rewrite lookup_empty in H.
Qed.

Section ConvertClaims.
Context (document : Engine Q).

(** C5.  A path that begins with a curve: there is no segment before the
    curve to start it from, and the flattener fails, with the [TypeError] of
    reading [values] of [undefined], whatever the complexity; nothing
    catches it, and the conversion of a drawing whose first shape has such a
    path fails with it. *)
Theorem curve_without_anchor_throws fuel complexity seg
    (rest : list (PathSeg Q)) :
  type seg = "C" →
  reducePathSegCurveComplexity document fuel (seg :: rest) complexity
  = Throws TypeError
  ∧ ∀ StringToNumber bounds (svgNode : SVGSVGElement) attributes elem elems,
      querySelectorAll svgNode = elem :: elems →
      getPathData elem = seg :: rest →
      svgToGeoJson document StringToNumber fuel bounds svgNode complexity
        attributes
      = Throws TypeError.
Proof.
  intros Hc. split; [by apply reduce_orphan|].
  intros S bounds svgNode attributes elem elems Helems Hpath.
  unfold svgToGeoJson. rewrite Helems. cbn [convertAll]. unfold convert.
  by rewrite Hpath, reduce_orphan.
Qed.


(** C9 (as amended).  The properties of a feature are the requested
    attributes, the name [__proto__] apart, that the element has with a
    value that is not empty, each under its name and with its value; a
    requested name that is missing or empty on the element is no key of
    [properties], and [__proto__] is never one. *)
Theorem properties_are_the_present_attributes fuel
    (mX mY : ext Q → ext Q) complexity attributes (elem : Element) feature :
  convert document fuel mX mY complexity attributes elem = Returns feature →
  (∀ name value,
     properties feature !! name = Some value
     ↔ name ∈ attributes ∧ name ≠ "__proto__"
       ∧ getAttribute elem name = Some value ∧ value ≠ EmptyString)
  ∧ (∀ name,
       getAttribute elem name = None ∨ getAttribute elem name = Some EmptyString →
       properties feature !! name = None)
  ∧ properties feature !! "__proto__" = None.
Proof.
  unfold convert. destruct (reducePathSegCurveComplexity _ _ _ _);
    [|done..].
  intros [= <-]. cbn [properties]. split; [|split].
  - intros name value. apply collect_lookup.
  - intros name Hno.
    destruct (collect elem attributes !! name) as [v|] eqn:Hv; [|done].
    apply collect_lookup in Hv as (_ & _ & Hget & Hne).
    destruct Hno as [Hno|Hno]; congruence.
  - destruct (collect elem attributes !! "__proto__") as [v|] eqn:Hv; [|done].
    by apply collect_lookup in Hv as (_ & Hp & _).
Qed.

End ConvertClaims.

(** C5, witness: a path data that is one curve and nothing before it. *)
Lemma curve_without_anchor_throws_witness :
  reducePathSegCurveComplexity stroke_browser 11
    [CurveTo 0 0 10 0 10 0; MoveTo 0 0] 5
  = Throws TypeError.
Proof.
  apply (curve_without_anchor_throws stroke_browser 11 5
           (CurveTo 0 0 10 0 10 0) [MoveTo 0 0]).
  reflexivity.
Defined.


(** C9, witness: the square has an [id] and no [class]. *)
Lemma properties_are_the_present_attributes_witness :
  let mX := mapX ((10, 10), (0, 0))%Q (Finite 100%Q) in
  let mY := mapY ((10, 10), (0, 0))%Q (Finite 100%Q) in
  ∃ feature,
    convert stroke_browser 1 mX mY 5 ["id"; "class"] rect = Returns feature
    ∧ properties feature !! "id" = Some "r1"
    ∧ properties feature !! "class" = None
    ∧ properties feature !! "__proto__" = None.
Proof.
  intros mX mY. eexists. split; [reflexivity|].
  destruct (properties_are_the_present_attributes stroke_browser 1
              mX mY 5 ["id"; "class"] rect _ eq_refl)
    as (Hkeys & Hnone & Hproto).
  split; [|split].
  - apply Hkeys. split; [apply list_elem_of_here|].
    split; [discriminate|]. split; [reflexivity|discriminate].
  - apply Hnone. left. reflexivity.
  - exact Hproto.
Defined.

(** C9, counterexample.  The element has the attribute [__proto__] with the
    value [x], and the name is requested, first of two: the feature is
    made, its properties hold the [id] and nothing else, and there is no key
    [__proto__] in them. *)
Lemma proto_attribute_is_not_a_property :
  let mX := mapX ((10, 10), (0, 0))%Q (Finite 100%Q) in
  let mY := mapY ((10, 10), (0, 0))%Q (Finite 100%Q) in
  ∃ feature,
    convert stroke_browser 1 mX mY 5 ["__proto__"; "id"] tagged
    = Returns feature
    ∧ "__proto__" ∈ ["__proto__"; "id"]
    ∧ getAttribute tagged "__proto__" = Some "x"
    ∧ "x" ≠ EmptyString
    ∧ properties feature !! "__proto__" = None
    ∧ properties feature = {[ "id" := "r1" ]}.
Proof.
  intros mX mY. eexists. split; [reflexivity|].
  split; [apply list_elem_of_here|]. split; [reflexivity|].
  split; [discriminate|]. split; [reflexivity|].
  vm_compute. reflexivity.
Qed.

(** * The flattener and the store *)

Section HeapFacts.
Context {num : Type} (document : Engine num).
Implicit Types (h : gmap Heap.ref (Heap.object num)) (r newSegs arr : Heap.ref).
Implicit Types (seg : PathSeg num) (st : Loop num).

Lemma grows_refl newSegs h : Heap.grows newSegs h h.
Proof. by intros r o H _. Qed.

Lemma grows_trans newSegs h1 h2 h3 :
  Heap.grows newSegs h1 h2 → Heap.grows newSegs h2 h3 →
  Heap.grows newSegs h1 h3.
Proof. intros H12 H23 r o H Hne. apply H23; [|done]. by apply H12. Qed.

Lemma grows_alloc newSegs h o :
  Heap.grows newSegs h (<[fresh (dom h) := o]> h).
Proof.
  intros r o' H _. rewrite lookup_insert_ne; [done|].
  intros <-. apply (is_fresh (dom h)). apply elem_of_dom. by eexists.
Qed.

Lemma grows_push newSegs h o : Heap.grows newSegs h (<[newSegs := o]> h).
Proof. intros r o' H Hne. by rewrite lookup_insert_ne. Qed.

(** The part of the store that does not hold [newSegs] is kept. *)
Lemma grows_frame newSegs h0 h h' :
  h0 !! newSegs = None → h0 ⊆ h → Heap.grows newSegs h h' → h0 ⊆ h'.
Proof.
  intros Hnone Hsub Hgrows. apply map_subseteq_spec. intros r o Hr.
  apply Hgrows.
  - by eapply lookup_weaken.
  - intros ->. congruence.
Qed.

(** A segment stays what it is while the store grows. *)
Lemma view_grows newSegs h h' rs r seg :
  h !! newSegs = Some (Heap.Array rs) → Heap.grows newSegs h h' →
  Heap.view h r = Some seg → Heap.view h' r = Some seg.
Proof.
  intros Harr Hgrows. unfold Heap.view.
  destruct (h !! r) as [[t v| |]|] eqn:Hr; try done.
  destruct (h !! v) as [[| vs |]|] eqn:Hv; try done.
  intros [= <-].
  rewrite (Hgrows r _ Hr) by (intros ->; congruence).
  rewrite (Hgrows v _ Hv) by (intros ->; congruence). done.
Qed.

Lemma views_grow newSegs h h' rs (refs : list Heap.ref)
    (segs : list (PathSeg num)) :
  h !! newSegs = Some (Heap.Array rs) → Heap.grows newSegs h h' →
  Forall2 (λ r seg, Heap.view h r = Some seg) refs segs →
  Forall2 (λ r seg, Heap.view h' r = Some seg) refs segs.
Proof.
  intros Harr Hgrows Hall. eapply Forall2_impl; [exact Hall|].
  intros r seg. by eapply view_grows.
Qed.

(** [newSegs.push({type: 'L', values: [a, b]})] allocates the segment and
    appends it. *)
Lemma pushLineTo_spec newSegs h rs a b :
  h !! newSegs = Some (Heap.Array rs) →
  ∃ h' r,
    Heap.pushLineTo newSegs a b h = (Returns tt, h')
    ∧ Heap.grows newSegs h h'
    ∧ h' !! newSegs = Some (Heap.Array (rs ++ [r]))
    ∧ (r ∉ dom h)
    ∧ Heap.view h' r = Some (LineTo a b).
Proof.
  intros Harr. unfold Heap.pushLineTo, Heap.bind, Heap.alloc, Heap.push.
  set (v := fresh (dom h)).
  set (h1 := <[v := Heap.Numbers [a; b]]> h).
  set (r := fresh (dom h1)).
  set (h2 := <[r := Heap.Segment "L" v]> h1).
  assert (Hv : v ∉ dom h) by apply is_fresh.
  assert (Hr : r ∉ dom h1) by apply is_fresh.
  assert (Hvn : v ≠ newSegs).
  { intros ->. apply Hv, elem_of_dom. by eexists. }
  assert (Hrv : r ≠ v).
  { intros Heq. apply Hr. rewrite Heq. unfold h1.
    rewrite dom_insert_L. set_solver. }
  assert (Hrn : r ≠ newSegs).
  { intros Heq. apply Hr. rewrite Heq. unfold h1.
    rewrite dom_insert_L. apply elem_of_union_r, elem_of_dom. by eexists. }
  assert (H2 : h2 !! newSegs = Some (Heap.Array rs)).
  { unfold h2, h1. by rewrite !lookup_insert_ne. }
  rewrite H2. eexists _, r. split; [reflexivity|]. split; [|split; [|split]].
  - eapply grows_trans; [apply grows_alloc|].
    eapply grows_trans; [apply grows_alloc|]. apply grows_push.
  - by rewrite lookup_insert_eq.
  - intros Hin. apply Hr. unfold h1. rewrite dom_insert_L. set_solver.
  - unfold Heap.view. rewrite lookup_insert_ne by done.
    unfold h2. rewrite lookup_insert_eq.
    rewrite lookup_insert_ne by done. rewrite lookup_insert_ne by done.
    unfold h1. by rewrite lookup_insert_eq.
Qed.

Lemma grows_dom newSegs h h' :
  Heap.grows newSegs h h' → is_Some (h' !! newSegs) → dom h ⊆ dom h'.
Proof.
  intros Hgrows Hsome r Hr. apply elem_of_dom in Hr as [o Hr].
  destruct (decide (r = newSegs)) as [->|Hne]; [by apply elem_of_dom|].
  apply elem_of_dom. exists o. by apply Hgrows.
Qed.

Lemma view_inv h r seg :
  Heap.view h r = Some seg →
  ∃ v, h !! r = Some (Heap.Segment (type seg) v)
       ∧ h !! v = Some (Heap.Numbers (values seg)).
Proof.
  unfold Heap.view. destruct (h !! r) as [[t v| |]|] eqn:Hr; try done.
  destruct (h !! v) as [[| vs |]|] eqn:Hv; try done.
  intros [= <-]. by exists v.
Qed.

(** The loop on the store does what the loop on values does, and every
    segment it appends is new. *)
Lemma sample_heap newSegs tmp len step :
  ∀ fuel d h rs (segs : list (PathSeg num)),
    h !! newSegs = Some (Heap.Array rs) →
    Forall2 (λ r seg, Heap.view h r = Some seg) rs segs →
    ∃ h',
      Heap.grows newSegs h h'
      ∧ match sample document fuel tmp d len step segs with
        | Some segs' =>
            ∃ new,
              Heap.sample document fuel tmp d len step newSegs h
              = (Returns tt, h')
              ∧ h' !! newSegs = Some (Heap.Array (rs ++ new))
              ∧ Forall2 (λ r seg, Heap.view h' r = Some seg) (rs ++ new) segs'
              ∧ Forall (λ r, r ∉ dom h) new
        | None =>
            Heap.sample document fuel tmp d len step newSegs h
            = (OutOfFuel, h')
        end.
Proof.
  induction fuel as [|fuel IH]; intros d h rs segs Harr Hviews.
  - exists h. split; [apply grows_refl | reflexivity].
  - simpl. destruct (js_le d len).
    + destruct (pushLineTo_spec newSegs h rs
                  (Some (x (getPointAtLength document tmp d)))
                  (Some (y (getPointAtLength document tmp d))) Harr)
        as (h1 & r & Hpush & Hgrows1 & Harr1 & Hfresh & Hview).
      destruct (IH (js_add d step) h1 (rs ++ [r])
                  (segs ++ [lineAt document tmp d]) Harr1)
        as (h' & Hgrows & Hrun).
      { apply Forall2_app;
          [exact (views_grow newSegs h h1 rs _ _ Harr Hgrows1 Hviews)|].
        constructor; [exact Hview | constructor]. }
      exists h'. split; [by eapply grows_trans|].
      unfold Heap.bind. rewrite Hpush.
      destruct (sample document fuel tmp (js_add d step) len step _);
        [|done].
      destruct Hrun as (new & Hrun & Harr' & Hviews' & Hnew).
      exists (r :: new). rewrite <- app_assoc in Harr', Hviews'.
      split; [done|]. split; [done|]. split; [done|].
      constructor; [done|].
      eapply Forall_impl; [exact Hnew|]. intros r' Hr' Hin. apply Hr'.
      eapply grows_dom; [exact Hgrows1 | by eexists | done].
    + exists h. split; [apply grows_refl|].
      exists []. rewrite app_nil_r. by repeat split.
Qed.

(** One round of [forEach] on the store and on values. *)
Lemma each_heap fuel complexity arr h rs st lastRef r seg :
  h !! arr = Some (Heap.Array rs) →
  Forall2 (λ r seg, Heap.view h r = Some seg) rs (newSegs st) →
  Heap.same_last h lastRef (lastSeg st) →
  Heap.view h r = Some seg →
  ∃ h',
    Heap.grows arr h h'
    ∧ match each document fuel complexity st seg with
      | Returns st' =>
          ∃ lastRef' new,
            Heap.each document fuel complexity arr lastRef r h
            = (Returns lastRef', h')
            ∧ h' !! arr = Some (Heap.Array (rs ++ new))
            ∧ Forall2 (λ r seg, Heap.view h' r = Some seg) (rs ++ new)
                (newSegs st')
            ∧ Heap.same_last h' lastRef' (lastSeg st')
            ∧ (if bool_decide (type seg = "C")
               then Forall (λ r', r' ∉ dom h) new
               else new = [r])
      | Throws e =>
          Heap.each document fuel complexity arr lastRef r h
          = (Throws e, h')
      | OutOfFuel =>
          Heap.each document fuel complexity arr lastRef r h
          = (OutOfFuel, h')
      end.
Proof.
  intros Harr Hviews Hlast Hview.
  destruct (view_inv h r seg Hview) as (v & Hr & Hv).
  unfold Heap.each, each, Heap.bind, Heap.getType. rewrite Hr.
  case_bool_decide as Hc.
  - destruct lastRef as [lr|], (lastSeg st) as [ls|] eqn:Hls; try done.
    2:{ exists h. split; [apply grows_refl | reflexivity]. }
    simpl in Hlast. destruct (view_inv h lr ls Hlast) as (lv & Hlr & Hlv).
    unfold Heap.getValues, Heap.getNumbers. rewrite Hlr, Hlv, Hr, Hv.
    fold (tmpPath ls seg). fold (tmpPathLength document ls seg).
    fold (lengthStep document ls seg complexity).
    destruct (js_not (tmpPathLength document ls seg)
              || js_not (lengthStep document ls seg complexity)).
    { exists h. split; [apply grows_refl|]. exists (Some lr), [].
      rewrite app_nil_r, Hls. by repeat split. }
    destruct (sample_heap arr (tmpPath ls seg)
                (tmpPathLength document ls seg)
                (lengthStep document ls seg complexity) fuel
                (lengthStep document ls seg complexity) h rs (newSegs st)
                Harr Hviews) as (h1 & Hgrows1 & Hrun).
    destruct (sample document fuel _ _ _ _ _) as [segs'|].
    2:{ exists h1. split; [done|]. by rewrite Hrun. }
    destruct Hrun as (new & Hrun & Harr1 & Hviews1 & Hnew).
    destruct (pushLineTo_spec arr h1 (rs ++ new) (index (values seg) 4)
                (index (values seg) 5) Harr1)
      as (h2 & r2 & Hpush & Hgrows2 & Harr2 & Hfresh2 & Hview2).
    exists h2. split; [by eapply grows_trans|].
    exists (Some r), (new ++ [r2]). rewrite Hrun, Hpush.
    split; [done|]. rewrite app_assoc. split; [done|]. split; [|split].
    + apply Forall2_app;
        [exact (views_grow arr h1 h2 _ _ _ Harr1 Hgrows2 Hviews1)|].
      constructor; [exact Hview2 | constructor].
    + simpl. eapply view_grows; [exact Harr1 | exact Hgrows2 |].
      eapply view_grows; [exact Harr | exact Hgrows1 | exact Hview].
    + apply Forall_app. split; [done|]. constructor; [|constructor].
      intros Hin. apply Hfresh2.
      eapply grows_dom; [exact Hgrows1 | by eexists | done].
  - unfold Heap.push. rewrite Harr.
    exists (<[arr := Heap.Array (rs ++ [r])]> h).
    split; [apply grows_push|]. exists (Some r), [r].
    split; [done|]. split; [by rewrite lookup_insert_eq|].
    assert (Hg := grows_push arr h (Heap.Array (rs ++ [r]))).
    split; [|split; [|done]].
    + apply Forall2_app;
        [exact (views_grow arr h _ _ _ _ Harr Hg Hviews)|].
      constructor; [|constructor]. by eapply view_grows.
    + simpl. by eapply view_grows.
Qed.

Lemma view_weaken h h' r seg :
  h ⊆ h' → Heap.view h r = Some seg → Heap.view h' r = Some seg.
Proof.
  intros Hsub Hview. destruct (view_inv h r seg Hview) as (v & Hr & Hv).
  unfold Heap.view.
  rewrite (lookup_weaken _ _ _ _ Hr Hsub), (lookup_weaken _ _ _ _ Hv Hsub).
  by destruct seg.
Qed.

Lemma filter_none {A} (P : A → Prop) `{∀ x, Decision (P x)} (l : list A) :
  Forall (λ x, ¬ P x) l → filter P l = [].
Proof.
  induction 1 as [|x l Hx _ IH]; [done|]. by rewrite filter_cons_False.
Qed.

(** The whole loop on the store and on values.  [h0] is the store at the
    call: of the references appended, those of [h0] are the segments of the
    input that are not curves, in their order. *)
Lemma forEach_heap fuel complexity arr h0 :
  h0 !! arr = None →
  ∀ (l : list Heap.ref) (segs : list (PathSeg num)) h rs st lastRef,
    h0 ⊆ h →
    Forall (λ r, r ∈ dom h0) l →
    Forall2 (λ r seg, Heap.view h r = Some seg) l segs →
    h !! arr = Some (Heap.Array rs) →
    Forall2 (λ r seg, Heap.view h r = Some seg) rs (newSegs st) →
    Heap.same_last h lastRef (lastSeg st) →
    ∃ h',
      Heap.grows arr h h'
      ∧ match forEach document fuel complexity segs st with
        | Returns st' =>
            ∃ lastRef' new,
              Heap.forEach document fuel complexity arr l lastRef h
              = (Returns lastRef', h')
              ∧ h' !! arr = Some (Heap.Array (rs ++ new))
              ∧ Forall2 (λ r seg, Heap.view h' r = Some seg) (rs ++ new)
                  (newSegs st')
              ∧ filter (λ r, r ∈ dom h0) new
                = filter (λ r, Heap.curve h0 r = false) l
        | Throws e =>
            Heap.forEach document fuel complexity arr l lastRef h
            = (Throws e, h')
        | OutOfFuel =>
            Heap.forEach document fuel complexity arr l lastRef h
            = (OutOfFuel, h')
        end.
Proof.
  intros Hnone l. induction l as [|r l IH];
    intros segs h rs st lastRef Hsub Hdom Hl Harr Hviews Hlast.
  - apply Forall2_nil_inv_l in Hl as ->. exists h.
    split; [apply grows_refl|]. exists lastRef, [].
    rewrite app_nil_r. by repeat split.
  - apply Forall2_cons_inv_l in Hl as (seg & segs' & Hview & Hl & ->).
    apply Forall_cons in Hdom as [Hr Hdom].
    cbn [forEach Heap.forEach]. unfold Heap.bind.
    destruct (each_heap fuel complexity arr h rs st lastRef r seg Harr
                Hviews Hlast Hview) as (h1 & Hgrows1 & Hstep).
    destruct (each document fuel complexity st seg) as [st1| |].
    2,3: exists h1; split; [done|]; by rewrite Hstep.
    destruct Hstep as (lastRef1 & new1 & Hstep & Harr1 & Hviews1 & Hlast1
                       & Hnew1).
    destruct (IH segs' h1 (rs ++ new1) st1 lastRef1) as (h' & Hgrows & Hrun);
      [by eapply grows_frame | done
      | exact (views_grow arr h h1 rs _ _ Harr Hgrows1 Hl) | done..|].
    exists h'. split; [by eapply grows_trans|]. rewrite Hstep.
    destruct (forEach document fuel complexity segs' st1) as [st'| |];
      [|done..].
    destruct Hrun as (lastRef' & new & Hrun & Harr' & Hviews' & Hnew).
    exists lastRef', (new1 ++ new). rewrite app_assoc.
    split; [done|]. split; [done|]. split; [done|].
    rewrite filter_app, Hnew.
    (* the kind of [r] in the store at the call *)
    destruct (view_inv h r seg Hview) as (v & Hhr & _).
    apply elem_of_dom in Hr as [o Ho].
    assert (o = Heap.Segment (type seg) v) as ->.
    { apply (lookup_weaken _ _ _ _ Ho) in Hsub. congruence. }
    assert (Hcurve : Heap.curve h0 r = bool_decide (type seg = "C")).
    { unfold Heap.curve. by rewrite Ho. }
    destruct (bool_decide (type seg = "C")) eqn:Hc.
    + rewrite filter_cons_False by (rewrite Hcurve; done).
      rewrite filter_none; [done|].
      eapply Forall_impl; [exact Hnew1|]. intros r' Hr' Hin. apply Hr'.
      by eapply (subseteq_dom h0 h).
    + subst new1.
      rewrite (filter_cons_True (λ r, r ∈ dom h0))
        by (apply elem_of_dom; by eexists).
      by rewrite (filter_cons_True (λ r, Heap.curve h0 r = false)).
Qed.

(** C10.  The store at the call is a part of the store after it, whether
    the call returns, throws or is cut short: the input array, its segments
    and their [values] are what they were.  When the flattener returns, on
    the store as on values, its result is an array that the store did not
    hold; and the references of that array that the store did hold are the
    segments of the input that are not curves, in the order of the input. *)
Theorem flattener_builds_a_new_array fuel pathSegList complexity h
    (l : list Heap.ref) (segs : list (PathSeg num)) :
  h !! pathSegList = Some (Heap.Array l) →
  Forall2 (λ r seg, Heap.view h r = Some seg) l segs →
  ∃ result h',
    Heap.reducePathSegCurveComplexity document fuel pathSegList complexity h
    = (result, h')
    ∧ h ⊆ h'
    ∧ match reducePathSegCurveComplexity document fuel segs complexity with
      | Returns out =>
          ∃ arr new,
            result = Returns arr
            ∧ (arr ∉ dom h)
            ∧ h' !! arr = Some (Heap.Array new)
            ∧ Forall2 (λ r seg, Heap.view h' r = Some seg) new out
            ∧ filter (λ r, r ∈ dom h) new
              = filter (λ r, Heap.curve h r = false) l
      | Throws e => result = Throws e
      | OutOfFuel => result = OutOfFuel
      end.
Proof.
  intros Hlist Hl.
  unfold Heap.reducePathSegCurveComplexity, reducePathSegCurveComplexity,
    Heap.bind, Heap.alloc, Heap.getArray.
  set (arr := fresh (dom h)).
  assert (Hfresh : arr ∉ dom h) by apply is_fresh.
  assert (Hnone : h !! arr = None) by by apply not_elem_of_dom.
  set (h1 := <[arr := Heap.Array []]> h).
  assert (Hsub : h ⊆ h1) by by apply insert_subseteq.
  rewrite (lookup_weaken _ _ _ _ Hlist Hsub).
  destruct (forEach_heap fuel complexity arr h Hnone l segs h1 []
              {| newSegs := []; lastSeg := None |} None)
    as (h' & Hgrows & Hrun); [done| | | |by constructor|done|].
  { eapply Forall2_Forall_l; [exact Hl|]. apply Forall_forall.
    intros seg _ r Hview.
    destruct (view_inv h r seg Hview) as (v & Hr & _).
    apply elem_of_dom. by eexists. }
  { eapply Forall2_impl; [exact Hl|]. intros r seg. by apply view_weaken. }
  { apply lookup_insert_eq. }
  assert (Hframe : h ⊆ h') by by eapply grows_frame.
  destruct (forEach document fuel complexity segs _) as [st'| |].
  - destruct Hrun as (lastRef' & new & Hrun & Harr' & Hviews' & Hnew).
    rewrite Hrun. eexists _, h'. split; [reflexivity|]. split; [done|].
    exists arr, new. by repeat split.
  - rewrite Hrun. eexists _, h'. by repeat split.
  - rewrite Hrun. eexists _, h'. by repeat split.
Qed.

End HeapFacts.

(** C10, witness: the stroke of length 10 in a store, with complexity 5. *)
Lemma flattener_builds_a_new_array_witness :
  ∃ result h',
    Heap.reducePathSegCurveComplexity stroke_browser 11 1%positive 5
      stroke_store
    = (result, h')
    ∧ stroke_store ⊆ h'
    ∧ match reducePathSegCurveComplexity stroke_browser 11 stroke 5 with
      | Returns out =>
          ∃ arr new,
            result = Returns arr
            ∧ (arr ∉ dom stroke_store)
            ∧ h' !! arr = Some (Heap.Array new)
            ∧ Forall2 (λ r seg, Heap.view h' r = Some seg) new out
            ∧ filter (λ r, r ∈ dom stroke_store) new
              = filter (λ r, Heap.curve stroke_store r = false)
                  [2%positive; 4%positive]
      | Throws e => result = Throws e
      | OutOfFuel => result = OutOfFuel
      end.
Proof.
  apply (flattener_builds_a_new_array stroke_browser 11 1%positive 5
           stroke_store [2%positive; 4%positive] stroke);
    [reflexivity | repeat (constructor; [reflexivity|]); constructor].
Defined.

(** * More on the flattener *)

Section FlattenerShape.
Context {num : Type} (document : Engine num).
Implicit Types (seg last : PathSeg num) (st : Loop num).
Implicit Types (l pre post out : list (PathSeg num)).

(** Whatever the loop appends is a run of [L] segments. *)
Lemma sample_appends tmp len step fuel :
  ∀ d segs result,
    sample document fuel tmp d len step segs = Some result →
    ∃ samples, result = segs ++ samples
               ∧ Forall (λ s, type s = "L") samples.
Proof.
  induction fuel as [|fuel IH]; intros d segs result Hrun; [done|].
  cbn [sample] in Hrun. destruct (js_le d len).
  - apply IH in Hrun as (samples & -> & Hall).
    exists (lineAt document tmp d :: samples).
    rewrite <- app_assoc. split; [done|]. by constructor.
  - injection Hrun as <-. exists []. by rewrite app_nil_r.
Qed.

(** One round of the loop appends the piece of its segment, and from then
    on there is a last segment. *)
Lemma each_piece fuel complexity st seg st' :
  each document fuel complexity st seg = Returns st' →
  (is_Some (lastSeg st) ∨ type seg ≠ "C")
  ∧ is_Some (lastSeg st')
  ∧ ∃ piece, newSegs st' = newSegs st ++ piece ∧ flattened seg piece.
Proof.
  unfold each, flattened. case_bool_decide as Hc.
  - destruct (lastSeg st) as [last|] eqn:Hlast; [|done].
    destruct (_ || _).
    + intros [= <-]. rewrite Hlast. split; [left; by eexists|].
      split; [by eexists|]. exists []. rewrite app_nil_r. split; [done|].
      by left.
    + destruct (sample document fuel _ _ _ _ _) as [segs|] eqn:Hrun; [|done].
      intros [= <-]. apply sample_appends in Hrun as (samples & -> & Hall).
      split; [left; by eexists|]. split; [by eexists|]. cbn [newSegs].
      eexists. rewrite <- app_assoc. split; [reflexivity|]. right.
      by exists samples.
  - intros [= <-]. split; [by right|]. split; [by eexists|]. by exists [seg].
Qed.

Lemma forEach_pieces fuel complexity l :
  ∀ st st',
    forEach document fuel complexity l st = Returns st' →
    ∃ pieces, newSegs st' = newSegs st ++ concat pieces
              ∧ Forall2 flattened l pieces.
Proof.
  induction l as [|seg l IH]; intros st st' Hrun.
  - injection Hrun as <-. exists []. simpl. by rewrite app_nil_r.
  - cbn [forEach] in Hrun.
    destruct (each document fuel complexity st seg) as [st1| |] eqn:Hstep;
      [|done..].
    apply each_piece in Hstep as (_ & _ & piece & Hpiece & Hflat).
    apply IH in Hrun as (pieces & Hsegs & Hall).
    exists (piece :: pieces). split; [|by constructor].
    rewrite Hsegs, Hpiece. simpl. by rewrite <- app_assoc.
Qed.

(** X1.  The output follows the input segment by segment: it is the
    concatenation, in the order of the input, of one piece for each segment,
    the segment itself when it is not a curve, and for a curve either
    nothing or [L] segments that end with its declared end point. *)
Theorem flattening_is_segment_wise fuel complexity l out :
  reducePathSegCurveComplexity document fuel l complexity = Returns out →
  ∃ pieces, out = concat pieces ∧ Forall2 flattened l pieces.
Proof.
  unfold reducePathSegCurveComplexity.
  destruct (forEach document fuel complexity l _) as [st'| |] eqn:Hrun;
    [|done..].
  intros [= <-]. by apply forEach_pieces in Hrun.
Qed.

(** X2.  No curve is left in the output. *)
Theorem output_has_no_curve fuel complexity l out :
  reducePathSegCurveComplexity document fuel l complexity = Returns out →
  Forall (λ s, type s ≠ "C") out.
Proof.
  unfold reducePathSegCurveComplexity.
  destruct (forEach document fuel complexity l _) as [st'| |] eqn:Hrun;
    [|done..].
  intros [= <-]. apply forEach_pieces in Hrun as (pieces & -> & Hall).
  cbn [newSegs app].
  apply Forall_concat. induction Hall as [|seg piece l pieces Hflat _ IH];
    constructor; [|done].
  unfold flattened in Hflat. case_bool_decide as Hc.
  - destruct Hflat as [->|(samples & -> & Hsamples)]; [constructor|].
    apply Forall_app. split.
    + eapply Forall_impl; [exact Hsamples|]. by intros s ->.
    + by repeat constructor.
  - subst piece. by repeat constructor.
Qed.

(** X3.  A path without a curve comes back as it is, whatever the
    complexity, and with no fuel at all. *)
Theorem path_without_curve_is_kept fuel complexity l :
  Forall (λ s, type s ≠ "C") l →
  reducePathSegCurveComplexity document fuel l complexity = Returns l.
Proof.
  intros Hall. unfold reducePathSegCurveComplexity.
  assert (∀ st, ∃ lastSeg',
            forEach document fuel complexity l st
            = Returns {| newSegs := newSegs st ++ l; lastSeg := lastSeg' |})
    as Hrun.
  { induction Hall as [|seg l Hseg _ IH]; intros st.
    - exists (lastSeg st). simpl. rewrite app_nil_r. by destruct st.
    - cbn [forEach]. rewrite each_other by done.
      destruct (IH {| newSegs := newSegs st ++ [seg]; lastSeg := Some seg |})
        as [lastSeg' ->].
      exists lastSeg'. cbn [newSegs]. by rewrite <- app_assoc. }
  by destruct (Hrun {| newSegs := []; lastSeg := None |}) as [lastSeg' ->].
Qed.

(** With a segment before it, a round of the loop does not throw. *)
Lemma forEach_does_not_throw fuel complexity l :
  ∀ st e, is_Some (lastSeg st) →
    forEach document fuel complexity l st ≠ Throws e.
Proof.
  induction l as [|seg l IH]; intros st e Hlast; [done|].
  cbn [forEach].
  destruct (each document fuel complexity st seg) as [st1| |] eqn:Hstep.
  - apply each_piece in Hstep as (_ & Hlast1 & _). by apply IH.
  - unfold each in Hstep. case_bool_decide; [|done].
    destruct Hlast as [last Hlast]. rewrite Hlast in Hstep.
    destruct (_ || _); [done|]. by destruct (sample _ _ _ _ _ _ _).
  - done.
Qed.

(** X4.  The flattener throws in one case only, a path that begins with a
    curve; and what it throws is the [TypeError]. *)
Theorem throws_only_on_leading_curve fuel complexity l e :
  reducePathSegCurveComplexity document fuel l complexity = Throws e
  ↔ e = TypeError ∧ ∃ seg rest, l = seg :: rest ∧ type seg = "C".
Proof.
  split.
  - intros Hrun. split; [by destruct e|].
    destruct l as [|seg rest].
    { by vm_compute in Hrun. }
    exists seg, rest. split; [done|].
    destruct (decide (type seg = "C")) as [|Hc]; [done|]. exfalso.
    unfold reducePathSegCurveComplexity in Hrun. cbn [forEach] in Hrun.
    rewrite each_other in Hrun by done.
    destruct (forEach document fuel complexity rest _) as [st'| |] eqn:Hrest;
      [done| |done].
    by apply forEach_does_not_throw in Hrest; [|by eexists].
  - intros (-> & seg & rest & -> & Hc). by apply reduce_orphan.
Qed.

Lemma forEach_app fuel complexity pre post st :
  forEach document fuel complexity (pre ++ post) st
  = match forEach document fuel complexity pre st with
    | Returns st' => forEach document fuel complexity post st'
    | Throws e => Throws e
    | OutOfFuel => OutOfFuel
    end.
Proof.
  revert st. induction pre as [|seg pre IH]; intros st; [done|].
  cbn [app forEach]. by destruct (each document fuel complexity st seg).
Qed.

(** X5.  A curve of length zero can be taken out of a path: the result is
    the same with and without it, the segments after it being anchored at
    the segment before it. *)
Theorem zero_length_curve_can_be_removed fuel complexity pre seg post
    st last :
  forEach document fuel complexity pre {| newSegs := []; lastSeg := None |}
  = Returns st →
  lastSeg st = Some last →
  type seg = "C" →
  (getTotalLength document (tmpPath last seg) == 0)%Q →
  reducePathSegCurveComplexity document fuel (pre ++ seg :: post) complexity
  = reducePathSegCurveComplexity document fuel (pre ++ post) complexity.
Proof.
  intros Hpre Hlast Hc Hzero. unfold reducePathSegCurveComplexity.
  rewrite !forEach_app, Hpre. cbn [forEach].
  by rewrite (each_zero_length document fuel complexity st seg last).
Qed.

(** X6.  The number of segments a curve gets.  For a curve of length that
    is not zero and a complexity [N >= 1], with [len = ceil(length)] and
    [step = ceil(len / N)], the loop takes [len / step] samples (the integer
    quotient), at least 1 and at most [N], and the end point comes after
    them: the curve gets [len / step + 1] segments, between 2 and [N + 1]. *)
Theorem curve_segment_count fuel complexity st seg last :
  type seg = "C" → lastSeg st = Some last → (1 ≤ complexity)%Z →
  (0 < getTotalLength document (tmpPath last seg))%Q →
  (Z.to_nat (Qceiling (getTotalLength document (tmpPath last seg))) < fuel)%nat →
  let len := Qceiling (getTotalLength document (tmpPath last seg)) in
  let step := Qceiling (inject_Z len / inject_Z complexity) in
  ∃ samples,
    each document fuel complexity st seg
    = Returns
        {| newSegs :=
             newSegs st ++ samples
             ++ [LineTo (index (values seg) 4) (index (values seg) 5)];
           lastSeg := Some seg |}
    ∧ Z.of_nat (length samples) = (len / step)%Z
    ∧ (1 ≤ len / step ≤ complexity)%Z.
Proof.
  intros Hc Hlast Hcx Hpos Hfuel len step.
  assert (Hlen : (1 ≤ len)%Z).
  { assert (H := Qle_ceiling (getTotalLength document (tmpPath last seg))).
    assert (H0 : (inject_Z 0 < inject_Z len)%Q)
      by (eapply Qlt_le_trans; [exact Hpos | exact H]).
    rewrite <- Zlt_Qlt in H0. lia. }
  assert (Hstep : step = (- (- len / complexity))%Z)
    by (apply Qceiling_quotient; lia).
  destruct (step_bounds len complexity Hlen Hcx) as [[Hs1 Hs2] Hs3].
  rewrite <- Hstep in Hs1, Hs2, Hs3.
  assert (Hk : (1 ≤ len / step ≤ complexity)%Z).
  { split.
    - apply Z.div_le_lower_bound; lia.
    - apply Z.div_le_upper_bound; lia. }
  eexists. split; [|split; [|exact Hk]].
  - unfold each. rewrite bool_decide_eq_true_2 by done. rewrite Hlast.
    unfold lengthStep, tmpPathLength. cbn [Math_ceil js_div].
    fold len. destruct (Z.eqb_spec complexity 0) as [?|_]; [lia|].
    cbn [Math_ceil]. fold step. cbn [js_not].
    destruct (Z.eqb_spec len 0) as [?|_]; [lia|].
    destruct (Z.eqb_spec step 0) as [?|_]; [lia|].
    cbn [orb]. rewrite (sample_count document _ len step Hs1)
      by (fold len in Hfuel; lia).
    rewrite <- app_assoc. reflexivity.
  - rewrite length_map. unfold marks. rewrite length_map, length_seq.
    replace (len - step + step)%Z with len by lia. lia.
Qed.

End FlattenerShape.

(** X1, witness: the stroke of length 10 with complexity 3. *)
Lemma flattening_is_segment_wise_witness :
  ∃ pieces,
    [MoveTo 0 0;
     LineTo (Some 4%Q) (Some 0%Q); LineTo (Some 8%Q) (Some 0%Q);
     LineTo (Some 10%Q) (Some 0%Q)]
    = concat pieces
    ∧ Forall2 flattened stroke pieces.
Proof.
  apply (flattening_is_segment_wise stroke_browser 4 3 stroke).
  reflexivity.
Defined.

(** X2, witness: the same call. *)
Lemma output_has_no_curve_witness :
  Forall (λ s : PathSeg Q, type s ≠ "C")
    [MoveTo 0 0;
     LineTo (Some 4%Q) (Some 0%Q); LineTo (Some 8%Q) (Some 0%Q);
     LineTo (Some 10%Q) (Some 0%Q)].
Proof.
  apply (output_has_no_curve stroke_browser 4 3 stroke).
  reflexivity.
Defined.

(** X3, witness: the square, with the complexity -3 and no fuel. *)
Lemma path_without_curve_is_kept_witness :
  reducePathSegCurveComplexity stroke_browser 0 square (-3) = Returns square.
Proof.
  apply (path_without_curve_is_kept stroke_browser 0 (-3) square).
  repeat (constructor; [discriminate|]). constructor.
Defined.

(** X4, witness: a curve and then an [M]. *)
Lemma throws_only_on_leading_curve_witness :
  TypeError = TypeError
  ∧ ∃ seg rest,
      [CurveTo 0 0 10 0 10 0; MoveTo 0 0] = seg :: rest ∧ type seg = "C".
Proof.
  apply (proj1 (throws_only_on_leading_curve stroke_browser 11 5
                  [CurveTo 0 0 10 0 10 0; MoveTo 0 0] TypeError)).
  reflexivity.
Defined.

(** X5, witness: the curve of length 0 between an [M] and an [L]. *)
Lemma zero_length_curve_can_be_removed_witness :
  reducePathSegCurveComplexity dot_browser 3
    ([MoveTo 5 5] ++ CurveTo 5 5 5 5 5 5 :: [LineTo (Some 7%Q) (Some 7%Q)]) 5
  = reducePathSegCurveComplexity dot_browser 3
      ([MoveTo 5 5] ++ [LineTo (Some 7%Q) (Some 7%Q)]) 5.
Proof.
  apply (zero_length_curve_can_be_removed dot_browser 3 5 [MoveTo 5 5]
           (CurveTo 5 5 5 5 5 5) [LineTo (Some 7%Q) (Some 7%Q)]
           {| newSegs := [MoveTo 5 5]; lastSeg := Some (MoveTo 5 5) |}
           (MoveTo 5 5));
    reflexivity.
Defined.

(** X6, witness: the stroke of length 10 with complexity 5, where the
    quotient is 5 and the curve gets 6 segments; with complexity 3 the step
    is 4, the quotient 2 and the curve gets 3. *)
Lemma curve_segment_count_witness :
  (∃ samples,
     each stroke_browser 11 5 at_origin (CurveTo 0 0 10 0 10 0)
     = Returns
         {| newSegs :=
              newSegs at_origin ++ samples
              ++ [LineTo (Some 10%Q) (Some 0%Q)];
            lastSeg := Some (CurveTo 0 0 10 0 10 0) |}
     ∧ Z.of_nat (length samples) = 5%Z ∧ (1 ≤ 5 ≤ 5)%Z)
  ∧ (∃ samples,
       each stroke_browser 11 3 at_origin (CurveTo 0 0 10 0 10 0)
       = Returns
           {| newSegs :=
                newSegs at_origin ++ samples
                ++ [LineTo (Some 10%Q) (Some 0%Q)];
              lastSeg := Some (CurveTo 0 0 10 0 10 0) |}
       ∧ Z.of_nat (length samples) = 2%Z ∧ (1 ≤ 2 ≤ 3)%Z).
Proof.
  split.
  - apply (curve_segment_count stroke_browser 11 5 at_origin
             (CurveTo 0 0 10 0 10 0) (MoveTo 0 0));
      [reflexivity | reflexivity | lia | reflexivity | vm_compute; lia].
  - apply (curve_segment_count stroke_browser 11 3 at_origin
             (CurveTo 0 0 10 0 10 0) (MoveTo 0 0));
      [reflexivity | reflexivity | lia | reflexivity | vm_compute; lia].
Defined.

(** X7, witness: the stroke with complexity 5. *)
Lemma flattener_returns_witness :
  ∃ fuel out, ∀ fuel',
    (fuel ≤ fuel')%nat →
    reducePathSegCurveComplexity stroke_browser fuel' stroke 5 = Returns out.
Proof.
  apply (flattener_returns stroke_browser 5 stroke); [lia|].
  intros seg rest [= <- _]. discriminate.
Defined.

(** * More on [getSVGDimensions] *)

Section DimensionShape.
Context (StringToNumber : string → ext Q).

Lemma getSVGDimensions_declared (svgNode : SVGSVGElement) w h :
  parseInt (getAttribute svgNode "width") = Finite w →
  parseInt (getAttribute svgNode "height") = Finite h →
  getSVGDimensions StringToNumber svgNode
  = Dimensions (Num (Finite w)) (Num (Finite h)).
Proof.
  intros Hw Hh. unfold getSVGDimensions. cbn [typeof].
  rewrite (bool_decide_eq_true_2 ("number" = "number")) by done.
  by rewrite Hw, Hh.
Qed.

(** Neither number is [NaN]: the two are returned as [parseInt] gave
    them. *)
Lemma getSVGDimensions_numbers (svgNode : SVGSVGElement) :
  parseInt (getAttribute svgNode "width") ≠ NaN →
  parseInt (getAttribute svgNode "height") ≠ NaN →
  getSVGDimensions StringToNumber svgNode
  = Dimensions (Num (parseInt (getAttribute svgNode "width")))
      (Num (parseInt (getAttribute svgNode "height"))).
Proof.
  intros Hw Hh. unfold getSVGDimensions. cbn [typeof].
  rewrite (bool_decide_eq_true_2 ("number" = "number")) by done.
  destruct (parseInt (getAttribute svgNode "width")); [| | |done];
    destruct (parseInt (getAttribute svgNode "height")); done.
Qed.

(** X8.  The result is [false] when [parseInt] makes [NaN] of the [width]
    or of the [height] attribute, and otherwise the object of the two
    numbers that [parseInt] makes of them, as they are.  Nothing else comes
    out: the branch that reads the [viewBox] cannot be reached, and the
    [viewBox] attribute changes nothing. *)
Theorem getSVGDimensions_result (svgNode : SVGSVGElement) :
  getSVGDimensions StringToNumber svgNode
  = match parseInt (getAttribute svgNode "width"),
          parseInt (getAttribute svgNode "height") with
    | NaN, _ | _, NaN => NoDimensions
    | w, h => Dimensions (Num w) (Num h)
    end.
Proof.
  destruct (parseInt (getAttribute svgNode "width")) as [w| | |] eqn:Hw;
    destruct (parseInt (getAttribute svgNode "height")) as [h| | |] eqn:Hh;
    first [ apply viewBox_is_never_used; rewrite ?Hw, ?Hh; by auto
          | rewrite getSVGDimensions_numbers by (by rewrite ?Hw, ?Hh);
            by rewrite Hw, Hh ].
Qed.

End DimensionShape.

(** Digits are read up to the first character that is not one. *)
Lemma digits_stop (s : string) c rest acc :
  digit c = None → digits (s +:+ String c rest) acc = digits s acc.
Proof.
  intros Hc. revert acc. induction s as [|a s IH]; intros acc; simpl.
  - by rewrite Hc.
  - destruct (digit a); [apply IH | done].
Qed.

Lemma trim_start_app (s t : string) :
  trim_start s ≠ EmptyString → trim_start (s +:+ t) = trim_start s +:+ t.
Proof.
  induction s as [|a s IH]; simpl; [done|].
  destruct (white_space a); [exact IH | reflexivity].
Qed.

(** What follows the integer at the start of a string does not count. *)
Lemma parseInt_prefix (s : string) c rest n :
  parseInt (Some s) = Finite n → digit c = None →
  parseInt (Some (s +:+ String c rest)) = Finite n.
Proof.
  unfold parseInt, default. cbn [from_option id].
  destruct (trim_start s) as [|a t] eqn:Ht; intros Hs Hc;
    [simpl in Hs; discriminate|].
  rewrite trim_start_app by (by rewrite Ht). rewrite Ht.
  change (String a t +:+ String c rest)
    with (String a (t +:+ String c rest)).
  assert (digits (String a t +:+ String c rest) None
          = digits (String a t) None) as Hall by by apply digits_stop.
  change (String a t +:+ String c rest)
    with (String a (t +:+ String c rest)) in Hall.
  repeat case_match; simplify_eq;
    rewrite ?digits_stop in * by done; simplify_eq; try done; congruence.
Qed.

(** X9.  A unit or a fraction after the integer is dropped: when the
    [width] and the [height] attribute each consist of a text that
    [parseInt] reads as an integer, followed by a character that is not a
    digit and by anything, the dimensions are these two integers. *)
Theorem units_and_fractions_are_dropped (StringToNumber : string → ext Q)
    (svgNode : SVGSVGElement) w cw restw a h ch resth b :
  getAttribute svgNode "width" = Some (w +:+ String cw restw) →
  getAttribute svgNode "height" = Some (h +:+ String ch resth) →
  parseInt (Some w) = Finite a → digit cw = None →
  parseInt (Some h) = Finite b → digit ch = None →
  getSVGDimensions StringToNumber svgNode
  = Dimensions (Num (Finite a)) (Num (Finite b)).
Proof.
  intros Hw Hh Ha Hcw Hb Hch. apply getSVGDimensions_declared.
  - rewrite Hw. by apply parseInt_prefix.
  - rewrite Hh. by apply parseInt_prefix.
Qed.

(** X9, witness: [width="100px" height="50.7"]. *)
Lemma units_and_fractions_are_dropped_witness :
  getSVGDimensions no_numeral with_units
  = Dimensions (Num (Finite 100%Z)) (Num (Finite 50%Z)).
Proof.
  apply (units_and_fractions_are_dropped no_numeral with_units
           "100" "p" "x" 100%Z "50" "." "7" 50%Z);
    reflexivity.
Defined.

(** * More on [svgToGeoJson] *)

Section ConvertShape.
Context (document : Engine Q) (StringToNumber : string → ext Q).

Lemma convertAll_returns fuel mX mY complexity attributes
    (elems : list Element) :
  ∀ (geoJson fs : list Feature),
    convertAll document fuel mX mY complexity attributes elems geoJson
    = Returns fs
    ↔ ∃ new,
        fs = geoJson ++ new
        ∧ Forall2 (λ elem f,
                     convert document fuel mX mY complexity attributes elem
                     = Returns f)
            elems new.
Proof.
  induction elems as [|elem elems IH]; intros geoJson fs; cbn [convertAll].
  - split.
    + intros [= <-]. exists []. by rewrite app_nil_r.
    + intros (new & -> & Hall). apply Forall2_nil_inv_l in Hall as ->.
      by rewrite app_nil_r.
  - destruct (convert document fuel mX mY complexity attributes elem)
      as [f| |] eqn:Hf.
    + rewrite IH. split.
      * intros (new & -> & Hall). exists (f :: new).
        rewrite <- app_assoc. split; [done|]. by constructor.
      * intros (new & -> & Hall).
        apply Forall2_cons_inv_l in Hall as (f' & new' & Hf' & Hall & ->).
        assert (f' = f) as -> by congruence.
        exists new'. split; [by rewrite <- app_assoc|done].
    + split; [done|]. intros (new & _ & Hall).
      apply Forall2_cons_inv_l in Hall as (? & ? & ? & _). congruence.
    + split; [done|]. intros (new & _ & Hall).
      apply Forall2_cons_inv_l in Hall as (? & ? & ? & _). congruence.
Qed.

(** X10.  A conversion returns a collection exactly when every shape
    converts, and the collection then holds one feature for each shape of
    [querySelectorAll], in that order; the two scales are built once, from
    the bounds and the dimensions of the drawing. *)
Theorem one_feature_per_shape fuel bounds (svgNode : SVGSVGElement)
    complexity attributes fc :
  let svgDims := getSVGDimensions StringToNumber svgNode in
  let mX := mapX bounds (ToNumber StringToNumber (width svgDims)) in
  let mY := mapY bounds (ToNumber StringToNumber (height svgDims)) in
  svgToGeoJson document StringToNumber fuel bounds svgNode complexity
    attributes
  = Returns fc
  ↔ Forall2 (λ elem f,
               convert document fuel mX mY complexity attributes elem
               = Returns f)
      (querySelectorAll svgNode) (features fc).
Proof.
  intros svgDims mX mY. unfold svgToGeoJson. fold svgDims. fold mX. fold mY.
  destruct (convertAll document fuel mX mY complexity attributes
              (querySelectorAll svgNode) []) as [fs| |] eqn:Hrun.
  - apply convertAll_returns in Hrun as (new & -> & Hall). split.
    + by intros [= <-].
    + intros Hall'. f_equal. destruct fc as [fs]. f_equal. simpl in *.
      clear -Hall Hall'. revert fs Hall'.
      induction Hall as [|elem f elems new Hf _ IH]; intros fs Hall'.
      * by apply Forall2_nil_inv_l in Hall' as ->.
      * apply Forall2_cons_inv_l in Hall' as (f' & fs' & Hf' & Hall' & ->).
        assert (f' = f) as -> by congruence. f_equal. by apply IH.
  - split; [done|]. intros Hall.
    assert (convertAll document fuel mX mY complexity attributes
              (querySelectorAll svgNode) [] = Returns (features fc)) as Heq.
    { apply convertAll_returns. by exists (features fc). }
    congruence.
  - split; [done|]. intros Hall.
    assert (convertAll document fuel mX mY complexity attributes
              (querySelectorAll svgNode) [] = Returns (features fc)) as Heq.
    { apply convertAll_returns. by exists (features fc). }
    congruence.
Qed.

Lemma convertAll_throws fuel mX mY complexity attributes
    (pre post : list Element) elem e :
  ∀ geoJson,
    Forall (λ el, ∃ f, convert document fuel mX mY complexity attributes el
                       = Returns f) pre →
    convert document fuel mX mY complexity attributes elem = Throws e →
    convertAll document fuel mX mY complexity attributes
      (pre ++ elem :: post) geoJson
    = Throws e.
Proof.
  induction pre as [|el pre IH]; intros geoJson Hpre Helem;
    cbn [app convertAll].
  - by rewrite Helem.
  - apply Forall_cons in Hpre as [[f Hf] Hpre]. rewrite Hf. by apply IH.
Qed.

(** X11.  The conversion stops at the first shape whose path begins with
    a curve: when the shapes before it convert, the call throws the
    [TypeError] and returns no collection, whatever comes after that
    shape. *)
Theorem conversion_fails_fast fuel bounds (svgNode : SVGSVGElement)
    complexity attributes (pre post : list Element) elem seg rest :
  let svgDims := getSVGDimensions StringToNumber svgNode in
  let mX := mapX bounds (ToNumber StringToNumber (width svgDims)) in
  let mY := mapY bounds (ToNumber StringToNumber (height svgDims)) in
  querySelectorAll svgNode = pre ++ elem :: post →
  Forall (λ el, ∃ f, convert document fuel mX mY complexity attributes el
                     = Returns f) pre →
  getPathData elem = seg :: rest → type seg = "C" →
  svgToGeoJson document StringToNumber fuel bounds svgNode complexity
    attributes
  = Throws TypeError.
Proof.
  intros svgDims mX mY Helems Hpre Hpath Hc. unfold svgToGeoJson.
  fold svgDims. fold mX. fold mY. rewrite Helems.
  rewrite (convertAll_throws fuel mX mY complexity attributes pre post elem
             TypeError); [done|done|].
  unfold convert. by rewrite Hpath, reduce_orphan.
Qed.

(** X12.  The ring follows the flattened path point by point: it has one
    position for each segment, the projection of the first two values of
    that segment; and for every [Z], wherever it stands, the projection of
    the first two values of the first segment of the whole path. *)
Theorem ring_follows_the_path fuel (mX mY : ext Q → ext Q) complexity
    attributes (elem : Element) (pathData : list (PathSeg Q)) feature :
  reducePathSegCurveComplexity document fuel (getPathData elem) complexity
  = Returns pathData →
  convert document fuel mX mY complexity attributes elem = Returns feature →
  length (positions (geometry feature)) = length pathData
  ∧ ∀ i pathitem,
      pathData !! i = Some pathitem →
      positions (geometry feature) !! i
      = Some (mapped mX mY (point_of pathData pathitem))
      ∧ (type pathitem = "Z" →
         positions (geometry feature) !! i
         = head (positions (geometry feature))).
Proof.
  intros Hrun. unfold convert. rewrite Hrun. intros [= <-]. cbn [geometry].
  assert (positions
            (if bool_decide (tagName elem = "polyline")
             then LineString (map (mapped mX mY) (coords pathData))
             else Polygon [map (mapped mX mY) (coords pathData)])
          = mapped mX mY <$> (point_of pathData <$> pathData)) as ->.
  { case_bool_decide; simpl; by rewrite ?app_nil_r. }
  split; [by rewrite !length_fmap|].
  intros i pathitem Hi. rewrite !list_lookup_fmap, Hi. split; [done|].
  intros Hz. rewrite head_lookup, !list_lookup_fmap.
  destruct pathData as [|first pathData]; [done|]. simpl.
  unfold point_of. rewrite bool_decide_eq_true_2 by done. simpl.
  by case_bool_decide.
Qed.

(** X13.  A shape without path data is not left out: it gives a feature
    without a position, a polygon of one empty ring or an empty line,
    whatever the complexity and with no fuel at all. *)
Theorem empty_path_gives_empty_feature fuel (mX mY : ext Q → ext Q)
    complexity attributes (elem : Element) :
  getPathData elem = [] →
  convert document fuel mX mY complexity attributes elem
  = Returns
      {| properties := collect elem attributes;
         geometry := if bool_decide (tagName elem = "polyline")
                     then LineString [] else Polygon [[]] |}.
Proof. intros Hpath. unfold convert. by rewrite Hpath. Qed.

Lemma scaleLinear_no_domain range v :
  scaleLinear range (Finite 0%Q, NaN) v = NaN.
Proof. unfold scaleLinear. by destruct range as [[] []]. Qed.

(** X14.  A drawing without usable dimensions is converted all the same:
    [getSVGDimensions] gives [false], nothing checks it, and every position
    of every feature is [[NaN, NaN]]. *)
Theorem missing_dimensions_give_NaN fuel bounds (svgNode : SVGSVGElement)
    complexity attributes fc :
  getSVGDimensions StringToNumber svgNode = NoDimensions →
  svgToGeoJson document StringToNumber fuel bounds svgNode complexity
    attributes
  = Returns fc →
  Forall (λ f, Forall (λ p, p = (NaN, NaN)) (positions (geometry f)))
    (features fc).
Proof.
  intros Hdims. unfold svgToGeoJson. rewrite Hdims. cbn [width height ToNumber].
  destruct (convertAll _ _ _ _ _ _ _ _) as [fs| |] eqn:Hrun; [|done..].
  intros [= <-]. cbn [features].
  apply convertAll_returns in Hrun as (new & -> & Hall). simpl.
  induction Hall as [|elem f elems new Hf _ IH]; constructor; [|done].
  unfold convert in Hf.
  destruct (reducePathSegCurveComplexity _ _ _ _) as [pathData| |];
    [|done..].
  injection Hf as <-. cbn [geometry].
  assert (Forall (λ p, p = (NaN, NaN))
            (map (mapped (mapX bounds NaN) (mapY bounds NaN))
               (coords pathData))) as Hnan.
  { apply Forall_forall. intros p Hp.
    apply list_elem_of_fmap in Hp as (coord & -> & _).
    unfold mapped, mapX, mapY. by rewrite !scaleLinear_no_domain. }
  case_bool_decide; simpl; by rewrite ?app_nil_r.
Qed.

End ConvertShape.

(** X15.  The properties depend on which names are requested, not on
    their order and not on how often a name is given. *)
Theorem properties_ignore_order_and_repeats (elem : Element)
    (requested requested' : list string) :
  (∀ name, name ∈ requested ↔ name ∈ requested') →
  collect elem requested = collect elem requested'.
Proof.
  intros Hsame. apply map_eq. intros name. apply option_eq. intros value.
  by rewrite !collect_lookup, Hsame.
Qed.

(** X10, witness: the drawing with the square. *)
Lemma one_feature_per_shape_witness :
  ∃ fc,
    svgToGeoJson stroke_browser no_numeral 1 ten drawing 5 ["id"]
    = Returns fc
    ∧ Forall2 (λ elem f,
                 convert stroke_browser 1
                   (mapX ten
                      (ToNumber no_numeral
                         (width (getSVGDimensions no_numeral drawing))))
                   (mapY ten
                      (ToNumber no_numeral
                         (height (getSVGDimensions no_numeral drawing))))
                   5 ["id"] elem
                 = Returns f)
        (querySelectorAll drawing) (features fc).
Proof.
  eexists. split; [reflexivity|].
  apply (proj1 (one_feature_per_shape stroke_browser no_numeral 1 ten
                  drawing 5 ["id"] _)).
  reflexivity.
Defined.

(** X11, witness: the square, then the shape that begins with a curve,
    then the shape without path data. *)
Lemma conversion_fails_fast_witness :
  svgToGeoJson stroke_browser no_numeral 1 ten mixed 5 [] = Throws TypeError.
Proof.
  apply (conversion_fails_fast stroke_browser no_numeral 1 ten mixed 5 []
           [rect] [blank] broken (CurveTo 0 0 10 0 10 0) []);
    [reflexivity | | reflexivity | reflexivity].
  constructor; [|constructor]. eexists. reflexivity.
Defined.

(** X12, witness: two subpaths, each closed by a [Z]; the second [Z] goes
    to the first point of the first subpath. *)
Lemma ring_follows_the_path_witness :
  let mX := mapX ten (Finite 100%Q) in
  let mY := mapY ten (Finite 100%Q) in
  ∃ feature,
    convert stroke_browser 0 mX mY 5 [] rings = Returns feature
    ∧ length (positions (geometry feature)) = 6%nat
    ∧ positions (geometry feature) !! 5%nat
      = Some (mapped mX mY (Some 0%Q, Some 0%Q))
    ∧ positions (geometry feature) !! 5%nat
      = head (positions (geometry feature)).
Proof.
  intros mX mY. eexists. split; [reflexivity|].
  pose proof (ring_follows_the_path stroke_browser 0 mX mY 5 [] rings
                two_rings _ eq_refl eq_refl) as [Hlen Hat].
  split; [exact Hlen|].
  destruct (Hat 5%nat ClosePath eq_refl) as [Hpos Hz].
  split; [exact Hpos | exact (Hz eq_refl)].
Defined.

(** X13, witness: the shape without path data. *)
Lemma empty_path_gives_empty_feature_witness :
  convert stroke_browser 0 (mapX ten (Finite 100%Q))
    (mapY ten (Finite 100%Q)) 5 ["id"] blank
  = Returns {| properties := ∅; geometry := Polygon [[]] |}.
Proof.
  apply (empty_path_gives_empty_feature stroke_browser 0 _ _ 5 ["id"] blank).
  reflexivity.
Defined.

(** X14, witness: the square in a drawing without dimensions. *)
Lemma missing_dimensions_give_NaN_witness :
  ∃ fc,
    svgToGeoJson stroke_browser no_numeral 1 ten unsized 5 [] = Returns fc
    ∧ Forall (λ f, Forall (λ p, p = (NaN, NaN)) (positions (geometry f)))
        (features fc).
Proof.
  eexists. split; [reflexivity|].
  apply (missing_dimensions_give_NaN stroke_browser no_numeral 1 ten unsized
           5 [] _); reflexivity.
Defined.

(** X15, witness: [id] asked for twice and after [class]. *)
Lemma properties_ignore_order_and_repeats_witness :
  collect rect ["id"; "class"; "id"] = collect rect ["class"; "id"].
Proof.
  apply (properties_ignore_order_and_repeats rect).
  intros name. rewrite !elem_of_cons, !elem_of_nil. tauto.
Defined.

(** * The older script *)

Section LegacyFacts.
Context (document : Engine Q) (StringToNumber : string → ext Q).

Lemma legacy_declared (svgNode : SVGSVGElement) w :
  parseInt (getAttribute svgNode "width") = Finite w →
  Legacy.getSVGDimensions StringToNumber svgNode
  = Dimensions (Num (Finite w))
      (Num (parseInt (getAttribute svgNode "height"))).
Proof.
  intros Hw. unfold Legacy.getSVGDimensions. cbn [typeof].
  rewrite (bool_decide_eq_true_2 ("number" = "number")) by done.
  by rewrite Hw.
Qed.

Lemma legacy_no_width (svgNode : SVGSVGElement) :
  parseInt (getAttribute svgNode "width") = NaN →
  Legacy.getSVGDimensions StringToNumber svgNode = NoDimensions.
Proof.
  intros Hw. unfold Legacy.getSVGDimensions. cbn [typeof].
  rewrite (bool_decide_eq_true_2 ("number" = "number")) by done.
  rewrite (bool_decide_eq_false_2 ("string" = "number")) by done.
  rewrite Hw. simpl. destruct (getAttribute svgNode "viewBox"); [|done].
  by rewrite orb_true_r.
Qed.

(** A width that is not [NaN]: the two numbers are returned as [parseInt]
    gave them, the height untested. *)
Lemma legacy_numbers (svgNode : SVGSVGElement) :
  parseInt (getAttribute svgNode "width") ≠ NaN →
  Legacy.getSVGDimensions StringToNumber svgNode
  = Dimensions (Num (parseInt (getAttribute svgNode "width")))
      (Num (parseInt (getAttribute svgNode "height"))).
Proof.
  intros Hw. unfold Legacy.getSVGDimensions. cbn [typeof].
  rewrite (bool_decide_eq_true_2 ("number" = "number")) by done.
  by destruct (parseInt (getAttribute svgNode "width")).
Qed.

(** X16.  The older [getSVGDimensions] looks at the width only: when
    [parseInt] makes [NaN] of the [width] attribute the result is [false];
    otherwise it is the object of the number made of the width and of
    whatever [parseInt] makes of the [height], [NaN] included.  The
    [viewBox] is never read here either. *)
Theorem legacy_dimensions_test_the_width_only (svgNode : SVGSVGElement) :
  Legacy.getSVGDimensions StringToNumber svgNode
  = match parseInt (getAttribute svgNode "width") with
    | NaN => NoDimensions
    | w => Dimensions (Num w)
             (Num (parseInt (getAttribute svgNode "height")))
    end.
Proof.
  destruct (parseInt (getAttribute svgNode "width")) as [w| | |] eqn:Hw;
    first [ by apply legacy_no_width
          | rewrite legacy_numbers by (by rewrite Hw); by rewrite Hw ].
Qed.

(** X17.  The two versions of [getSVGDimensions] give the same result
    but in one case, a width of which [parseInt] makes a number and a
    height of which it makes [NaN]: there the module gives [false], and the
    older script the object with the height [NaN]. *)
Theorem versions_differ_on_missing_height_only (svgNode : SVGSVGElement) :
  Legacy.getSVGDimensions StringToNumber svgNode
  = getSVGDimensions StringToNumber svgNode
  ↔ ¬ (parseInt (getAttribute svgNode "width") ≠ NaN
       ∧ parseInt (getAttribute svgNode "height") = NaN).
Proof.
  assert (Hdec : ∀ v : ext Z, v = NaN ∨ v ≠ NaN)
    by (intros []; auto; right; discriminate).
  destruct (Hdec (parseInt (getAttribute svgNode "width"))) as [Hw|Hw].
  - rewrite legacy_no_width, viewBox_is_never_used by auto.
    split; [|done]. by intros _ [? _].
  - rewrite legacy_numbers by done.
    destruct (Hdec (parseInt (getAttribute svgNode "height"))) as [Hh|Hh].
    + rewrite viewBox_is_never_used by auto.
      split; [done|]. intros Hno. exfalso. by apply Hno.
    + rewrite getSVGDimensions_numbers by done.
      split; [|done]. by intros _ [_ ?].
Qed.

Lemma legacy_convert fuel mX mY (elem : Element) :
  Legacy.convert document fuel mX mY elem
  = match convert document fuel mX mY 5 [] elem with
    | Returns f => Returns (named_test f)
    | Throws e => Throws e
    | OutOfFuel => OutOfFuel
    end.
Proof.
  unfold Legacy.convert, convert.
  by destruct (reducePathSegCurveComplexity _ _ _ _).
Qed.

Lemma legacy_convertAll fuel mX mY (elems : list Element) :
  ∀ geoJson,
    Legacy.convertAll document fuel mX mY elems (map named_test geoJson)
    = match convertAll document fuel mX mY 5 [] elems geoJson with
      | Returns fs => Returns (map named_test fs)
      | Throws e => Throws e
      | OutOfFuel => OutOfFuel
      end.
Proof.
  induction elems as [|elem elems IH]; intros geoJson; [done|].
  cbn [Legacy.convertAll convertAll]. rewrite legacy_convert.
  destruct (convert document fuel mX mY 5 [] elem) as [f| |]; [|done..].
  rewrite <- IH. by rewrite map_app.
Qed.

(** X18.  Where the two versions of [getSVGDimensions] agree, the older
    [svgToGeoJson] is the newer one called with the same corners, the
    complexity 5 and no attribute: the same failure or the same features
    with the same geometries, each under the one property
    [name: 'test']. *)
Theorem legacy_conversion_agrees fuel (bounds : Legacy.LatLngBounds)
    (svgNode : SVGSVGElement) :
  Legacy.getSVGDimensions StringToNumber svgNode
  = getSVGDimensions StringToNumber svgNode →
  let nw := Legacy.getNorthWest bounds in
  let se := Legacy.getSouthEast bounds in
  Legacy.svgToGeoJson document StringToNumber fuel bounds svgNode
  = match svgToGeoJson document StringToNumber fuel
            ((Legacy.lat nw, Legacy.lng se), (Legacy.lat se, Legacy.lng nw))
            svgNode 5 [] with
    | Returns fc => Returns {| features := map named_test (features fc) |}
    | Throws e => Throws e
    | OutOfFuel => OutOfFuel
    end.
Proof.
  intros Hdims nw se. unfold Legacy.svgToGeoJson, svgToGeoJson.
  rewrite Hdims. fold nw. fold se. unfold mapX, mapY. cbn [fst snd].
  rewrite (legacy_convertAll fuel _ _ (querySelectorAll svgNode) []).
  by destruct (convertAll _ _ _ _ _ _ _ _).
Qed.

(** X19.  In the older script a drawing with a width and without a height
    is converted, and every position of every feature has the latitude
    [NaN]. *)
Theorem legacy_missing_height_gives_NaN fuel (bounds : Legacy.LatLngBounds)
    (svgNode : SVGSVGElement) w fc :
  parseInt (getAttribute svgNode "width") = Finite w →
  parseInt (getAttribute svgNode "height") = NaN →
  Legacy.svgToGeoJson document StringToNumber fuel bounds svgNode
  = Returns fc →
  Forall (λ f, Forall (λ p : Position, p.2 = NaN) (positions (geometry f)))
    (features fc).
Proof.
  intros Hw Hh. unfold Legacy.svgToGeoJson.
  rewrite (legacy_declared _ w Hw), Hh. cbn [width height ToNumber].
  rewrite (legacy_convertAll fuel _ _ (querySelectorAll svgNode) []).
  destruct (convertAll _ _ _ _ _ _ _ _) as [fs| |] eqn:Hrun; [|done..].
  intros [= <-]. cbn [features].
  apply convertAll_returns in Hrun as (new & -> & Hall). simpl.
  induction Hall as [|elem f elems new Hf _ IH]; constructor; [|done].
  unfold convert in Hf.
  destruct (reducePathSegCurveComplexity _ _ _ _) as [pathData| |];
    [|done..].
  injection Hf as <-. cbn [named_test geometry].
  assert (Forall (λ p : Position, p.2 = NaN)
            (map (mapped
                    (scaleLinear
                       (parseFloat (Legacy.lng (Legacy.getNorthWest bounds)),
                        parseFloat (Legacy.lng (Legacy.getSouthEast bounds)))
                       (Finite 0%Q, Finite (inject_Z w)))
                    (scaleLinear
                       (parseFloat (Legacy.lat (Legacy.getNorthWest bounds)),
                        parseFloat (Legacy.lat (Legacy.getSouthEast bounds)))
                       (Finite 0%Q, NaN)))
               (coords pathData))) as Hnan.
  { apply Forall_forall. intros p Hp.
    apply list_elem_of_fmap in Hp as (coord & -> & _).
    unfold mapped. cbn [snd]. by rewrite scaleLinear_no_domain. }
  case_bool_decide; simpl; by rewrite ?app_nil_r.
Qed.

End LegacyFacts.

(** X17, witness: [<svg width="100" height="100">], where the two agree;
    with no height they differ. *)
Lemma versions_differ_on_missing_height_only_witness :
  Legacy.getSVGDimensions no_numeral drawing
  = getSVGDimensions no_numeral drawing
  ∧ Legacy.getSVGDimensions no_numeral without_height
    ≠ getSVGDimensions no_numeral without_height.
Proof.
  split.
  - apply (proj2 (versions_differ_on_missing_height_only no_numeral drawing)).
    intros [_ H]. discriminate H.
  - intros Heq.
    apply (proj1 (versions_differ_on_missing_height_only no_numeral
                    without_height) Heq).
    split; [discriminate | reflexivity].
Defined.

(** X18, witness: the drawing with the square. *)
Lemma legacy_conversion_agrees_witness :
  Legacy.svgToGeoJson stroke_browser no_numeral 1 corners drawing
  = match svgToGeoJson stroke_browser no_numeral 1 ten drawing 5 [] with
    | Returns fc => Returns {| features := map named_test (features fc) |}
    | Throws e => Throws e
    | OutOfFuel => OutOfFuel
    end.
Proof.
  apply (legacy_conversion_agrees stroke_browser no_numeral 1 corners drawing).
  reflexivity.
Defined.

(** X19, witness: the square in a drawing with a width and no height. *)
Lemma legacy_missing_height_gives_NaN_witness :
  ∃ fc,
    Legacy.svgToGeoJson stroke_browser no_numeral 1 corners without_height
    = Returns fc
    ∧ Forall (λ f, Forall (λ p : Position, p.2 = NaN)
                     (positions (geometry f)))
        (features fc).
Proof.
  eexists. split; [reflexivity|].
  apply (legacy_missing_height_gives_NaN stroke_browser no_numeral 1 corners
           without_height 100%Z _); reflexivity.
Defined.

(** * The orientation of the projection *)

Lemma scaleLinear_value r0 r1 d1 v :
  (0 < d1)%Q →
  ∃ q, scaleLinear (Finite r0, Finite r1) (Finite 0%Q, Finite d1) (Finite v)
       = Finite q
       ∧ (q == r0 + (r1 - r0) * (v / d1))%Q.
Proof.
  intros Hd.
  assert (H := scaleLinear_finite r0 r1 d1 v).
  destruct (scaleLinear _ _ _) as [q| | |] eqn:Hq.
  - exists q. split; [done|]. apply H. intros Hz. rewrite Hz in Hd.
    by apply Qlt_irrefl in Hd.
  - exfalso. apply H. intros Hz. rewrite Hz in Hd. by apply Qlt_irrefl in Hd.
  - exfalso. apply H. intros Hz. rewrite Hz in Hd. by apply Qlt_irrefl in Hd.
  - exfalso. apply H. intros Hz. rewrite Hz in Hd. by apply Qlt_irrefl in Hd.
Qed.

Lemma ratio_lt (a b d : Q) : (0 < d)%Q → (a < b)%Q → (a / d < b / d)%Q.
Proof.
  intros Hd Hab. unfold Qdiv. apply Qmult_lt_compat_r; [|done].
  by apply Qinv_lt_0_compat.
Qed.

(** X20.  The orientation of the two axes.  With a positive width and
    west below east, a point further right in the drawing gets a larger
    longitude; with a positive height and south below north, a point further
    down in the drawing gets a smaller latitude. *)
Theorem down_is_south_and_right_is_east
    (north east south west width height a b : Q) :
  (0 < width)%Q → (0 < height)%Q → (a < b)%Q →
  let bounds := ((north, east), (south, west)) in
  ((west < east)%Q →
   below (mapX bounds (Finite width) (Finite a))
         (mapX bounds (Finite width) (Finite b)))
  ∧ ((south < north)%Q →
     below (mapY bounds (Finite height) (Finite b))
           (mapY bounds (Finite height) (Finite a))).
Proof.
  intros Hw Hh Hab bounds. subst bounds.
  unfold mapX, mapY, parseFloat. cbn [fst snd].
  assert (Hx := ratio_lt a b width Hw Hab).
  assert (Hy := ratio_lt a b height Hh Hab).
  split; intros Hdir.
  - destruct (scaleLinear_value west east width a Hw) as (p & -> & Hp).
    destruct (scaleLinear_value west east width b Hw) as (q & -> & Hq).
    simpl. rewrite Hp, Hq. nra.
  - destruct (scaleLinear_value north south height a Hh) as (p & -> & Hp).
    destruct (scaleLinear_value north south height b Hh) as (q & -> & Hq).
    simpl. rewrite Hp, Hq. nra.
Qed.

(** X20, witness: the points at 25 and at 75 of a drawing of 100 by 100 in
    the bounds of the examples. *)
Lemma down_is_south_and_right_is_east_witness :
  below (mapX ten (Finite 100%Q) (Finite 25%Q))
        (mapX ten (Finite 100%Q) (Finite 75%Q))
  ∧ below (mapY ten (Finite 100%Q) (Finite 75%Q))
          (mapY ten (Finite 100%Q) (Finite 25%Q)).
Proof.
  destruct (down_is_south_and_right_is_east 10 10 0 0 100 100 25 75)
    as [Hx Hy]; [reflexivity..|].
  split; [apply Hx | apply Hy]; reflexivity.
Defined.
